(** * PxlsBot: the audit-log extension and the gateway error event

    A shallow embedding of [src/extensions/auditlog.ts] and
    [src/events/error.ts], and the properties of the pagination loop, of the
    audit-log command and of the reconnect handler that follow from it.

    Conventions.  A JavaScript string is a [string] of 8-bit code units, its
    [.length] is [String.length].  An [async] function that may reject is a
    computation in the monad [M] below: it threads the observable world (the
    storage, the messages sent to the channel, the lines given to the logger)
    and ends in [Ok v] or in [Throw err]. *)

From Stdlib Require Import String Ascii List ZArith Lia Bool DecimalString DecimalZ.
Import ListNotations.
Local Open Scope string_scope.
Local Open Scope list_scope.

(** ** The JavaScript runtime, as far as the two files use it *)

Module JS.

(** An [Error] object: the handler of [error.ts] reads [err.name]. *)
Record Error : Type := mkError { err_name : string; err_message : string }.

(** The completion of a call: a value, or a thrown error. *)
Inductive Result (A : Type) : Type :=
| Ok (a : A)
| Throw (e : Error).
Arguments Ok {A} a.
Arguments Throw {A} e.

(** Reading a property of [undefined] or [null]. *)
Definition TypeError (what : string) : Error :=
  {| err_name := "TypeError"; err_message := what |}.

(** The line feed ['\n']. *)
Definition LF : string := String "010"%char EmptyString.

(** [s.split(sep)] for a separator of one code unit. *)
Fixpoint split (sep : ascii) (s : string) : list string :=
  match s with
  | EmptyString => [EmptyString]
  | String c rest =>
      if Ascii.eqb c sep then EmptyString :: split sep rest
      else match split sep rest with
           | [] => [String c EmptyString]
           | w :: ws => String c w :: ws
           end
  end.

(** [n] copies of the code unit [c]. *)
Fixpoint repeat_char (c : ascii) (n : nat) : string :=
  match n with
  | O => EmptyString
  | S n' => String c (repeat_char c n')
  end.

(** *** Strings *)

(** The double quote, for the string literals of the source that hold one. *)
Definition DQ : string := String "034"%char EmptyString.

(** StrWhiteSpaceChar (white space and line terminators), for the code units
    below 256: TAB, LF, VT, FF, CR, SP and NBSP. *)
Definition isWhiteSpace (c : ascii) : bool :=
  let n := nat_of_ascii c in
  Nat.eqb n 9 || Nat.eqb n 10 || Nat.eqb n 11 || Nat.eqb n 12 ||
  Nat.eqb n 13 || Nat.eqb n 32 || Nat.eqb n 160.

Fixpoint trimStart (s : string) : string :=
  match s with
  | EmptyString => EmptyString
  | String c rest => if isWhiteSpace c then trimStart rest else s
  end.

Fixpoint trimEnd (s : string) : string :=
  match s with
  | EmptyString => EmptyString
  | String c rest =>
      match trimEnd rest with
      | EmptyString => if isWhiteSpace c then EmptyString else String c EmptyString
      | kept => String c kept
      end
  end.

(** [s.trim()]. *)
Definition trim (s : string) : string := trimEnd (trimStart s).

(** *** Numbers read from strings *)

(** The values [parseInt] returns, which are doubles: [NaN], an integer a
    double holds (the sign of a zero is not kept), or an infinity. *)
Inductive number : Type :=
| NaN
| Finite (z : Z)
| Infinity (negative : bool).

(** [String(z)] for an integer below 2^53 in magnitude. *)
Definition Z_toString (z : Z) : string := NilZero.string_of_int (Z.to_int z).

(** The double nearest to a non-negative integer, ties going to the even
    mantissa; [None] when it is beyond the largest double.  Below 2^53 every
    integer is a double; above, the mantissa keeps the 53 leading bits. *)
Definition nearest_double (m : Z) : option Z :=
  if (m <? 2 ^ 53)%Z then Some m
  else
    let e := (Z.log2 m - 52)%Z in
    let q := Z.shiftr m e in
    let r := (m - Z.shiftl q e)%Z in
    let half := Z.shiftl 1 (e - 1) in
    let q := if (half <? r)%Z || ((r =? half)%Z && Z.odd q) then (q + 1)%Z else q in
    let v := Z.shiftl q e in
    if (2 ^ 1024 <=? v)%Z then None else Some v.

(** The Number value of a sign and a magnitude. *)
Definition toNumber (negative : bool) (magnitude : Z) : number :=
  match nearest_double magnitude with
  | Some v => Finite (if negative then (- v)%Z else v)
  | None => Infinity negative
  end.

(** Whether the real number [v] is read as the double whose rounding
    interval, doubled, is from [lo2] to [hi2]; the ends count for an even
    mantissa. *)
Definition rounds_to (lo2 hi2 : Z) (closed : bool) (v : Z) : bool :=
  ((lo2 <? 2 * v)%Z && (2 * v <? hi2)%Z)
  || (closed && ((2 * v =? lo2)%Z || (2 * v =? hi2)%Z)).

(** The digits of Number::toString for a double [x] from 2^53 on: the
    number with the fewest significant digits that is read as [x], the one
    nearest to [x] when several have as few, and the even one on a tie.  It
    is sought as a multiple of 10^j, from the largest [j] down (no [j] above
    the number of digits of [x] can do); the result is the significant digits
    and [j]. *)
Fixpoint shortest_digits (j : nat) (x lo2 hi2 : Z) (closed : bool) : Z * nat :=
  let p := (10 ^ Z.of_nat j)%Z in
  let a := (x / p * p)%Z in
  let b := (a + p)%Z in
  let ia := (0 <? a)%Z && rounds_to lo2 hi2 closed a in
  let ib := rounds_to lo2 hi2 closed b in
  let found :=
    if ia && ib then
      Some (if (x - a <? b - x)%Z then a
            else if (b - x <? x - a)%Z then b
            else if Z.even (a / p) then a else b)
    else if ia then Some a
    else if ib then Some b
    else None in
  match found, j with
  | Some v, _ => ((v / p)%Z, j)
  | None, O => (x, O)
  | None, S j' => shortest_digits j' x lo2 hi2 closed
  end.

(** Number::toString for a double [x] from 2^53 on: the digits followed by
    zeros when the number has at most 21 digits, the exponent form after. *)
Definition large_toString (x : Z) : string :=
  let e := (Z.log2 x - 52)%Z in
  let q := Z.shiftr x e in
  let gap_below := if (2 ^ 52 <? q)%Z then Z.shiftl 1 e else Z.shiftl 1 (e - 1) in
  let lo2 := (2 * x - gap_below)%Z in
  let hi2 := (2 * x + Z.shiftl 1 e)%Z in
  let '(s, j) := shortest_digits (String.length (Z_toString x)) x lo2 hi2 (Z.even q) in
  let digits := Z_toString s in
  let n := (Z.of_nat (String.length digits) + Z.of_nat j)%Z in
  if (n <=? 21)%Z then digits ++ repeat_char "0" j
  else
    match digits with
    | EmptyString => EmptyString
    | String d EmptyString => String d ("e+" ++ Z_toString (n - 1))
    | String d rest => String d ("." ++ rest ++ "e+" ++ Z_toString (n - 1))
    end.

(** [`${n}`] for a value of [parseInt]. *)
Definition number_toString (n : number) : string :=
  match n with
  | NaN => "NaN"
  | Infinity false => "Infinity"
  | Infinity true => "-Infinity"
  | Finite z =>
      if (Z.abs z <? 2 ^ 53)%Z then Z_toString z
      else (if (z <? 0)%Z then "-" else "") ++ large_toString (Z.abs z)
  end.

Arguments number_toString n : simpl never.

(** [`${v}`] for a [string | null]. *)
Definition nullable_toString (v : option string) : string :=
  match v with
  | Some s => s
  | None => "null"
  end.

(** [a ?? b]. *)
Definition nullish {A : Type} (a b : option A) : option A :=
  match a with
  | Some _ => a
  | None => b
  end.

Definition inRange (lo hi : nat) (c : ascii) : bool :=
  let n := nat_of_ascii c in Nat.leb lo n && Nat.leb n hi.

Definition isDigit (c : ascii) : bool := inRange 48 57 c.
Definition isOctalDigit (c : ascii) : bool := inRange 48 55 c.
Definition isBinaryDigit (c : ascii) : bool := inRange 48 49 c.
Definition isHexDigit (c : ascii) : bool :=
  inRange 48 57 c || inRange 65 70 c || inRange 97 102 c.

(** The value of a digit in radix 16 (and so in radix 10). *)
Definition digitValue (c : ascii) : Z :=
  let n := Z.of_nat (nat_of_ascii c) in
  if inRange 48 57 c then n - 48
  else if inRange 65 70 c then n - 55
  else n - 87.

(** The longest prefix satisfying [p], and the rest. *)
Fixpoint span (p : ascii -> bool) (s : string) : string * string :=
  match s with
  | EmptyString => (EmptyString, EmptyString)
  | String c rest =>
      if p c then let '(taken, others) := span p rest in (String c taken, others)
      else (EmptyString, s)
  end.

Fixpoint forallChars (p : ascii -> bool) (s : string) : bool :=
  match s with
  | EmptyString => true
  | String c rest => p c && forallChars p rest
  end.

(** One or more characters, all satisfying [p]. *)
Definition isDigits (p : ascii -> bool) (s : string) : bool :=
  negb (String.eqb s EmptyString) && forallChars p s.

Definition isSign (c : ascii) : bool := Ascii.eqb c "+" || Ascii.eqb c "-".

Definition stripSign (s : string) : string :=
  match s with
  | String c rest => if isSign c then rest else s
  | EmptyString => s
  end.

(** ExponentPart, optional: nothing, or [e]/[E], an optional sign, digits. *)
Definition isExponentPartOpt (s : string) : bool :=
  match s with
  | EmptyString => true
  | String c rest =>
      (Ascii.eqb c "e" || Ascii.eqb c "E") && isDigits isDigit (stripSign rest)
  end.

(** StrUnsignedDecimalLiteral: [Infinity], [d.d?e?], [.de?] or [de?]. *)
Definition isStrUnsignedDecimalLiteral (s : string) : bool :=
  if String.eqb s "Infinity" then true
  else
    let '(int, afterInt) := span isDigit s in
    match afterInt with
    | String "."%char afterDot =>
        let '(frac, afterFrac) := span isDigit afterDot in
        negb (String.eqb int EmptyString && String.eqb frac EmptyString)
        && isExponentPartOpt afterFrac
    | _ => negb (String.eqb int EmptyString) && isExponentPartOpt afterInt
    end.

(** StrNumericLiteral: a signed decimal literal, or an unsigned binary, octal
    or hexadecimal integer literal. *)
Definition isStrNumericLiteral (s : string) : bool :=
  match s with
  | String "0"%char (String c rest) =>
      if Ascii.eqb c "x" || Ascii.eqb c "X" then isDigits isHexDigit rest
      else if Ascii.eqb c "o" || Ascii.eqb c "O" then isDigits isOctalDigit rest
      else if Ascii.eqb c "b" || Ascii.eqb c "B" then isDigits isBinaryDigit rest
      else isStrUnsignedDecimalLiteral s
  | _ => isStrUnsignedDecimalLiteral (stripSign s)
  end.

(** [isNaN(Number(s))] for a string [s]: [Number] trims white space, reads the
    empty string as 0, and gives [NaN] exactly when what is left is no
    StrNumericLiteral. *)
Definition isNaN_Number (s : string) : bool :=
  let t := trim s in
  if String.eqb t EmptyString then false else negb (isStrNumericLiteral t).

(** The integer a string of digits denotes in the given radix. *)
Fixpoint digitsValue (radix : Z) (acc : Z) (s : string) : Z :=
  match s with
  | EmptyString => acc
  | String c rest => digitsValue radix (acc * radix + digitValue c) rest
  end.

(** [parseInt(s)] with no radix: leading white space and a sign are skipped,
    [0x]/[0X] selects radix 16, the longest prefix of digits is read, there
    being none gives [NaN], and the integer read is rounded to a double. *)
Definition parseInt (s : string) : number :=
  let str := trimStart s in
  let negative := match str with String "-"%char _ => true | _ => false end in
  let str := stripSign str in
  let '(radix, str) :=
    match str with
    | String "0"%char (String c rest) =>
        if Ascii.eqb c "x" || Ascii.eqb c "X" then (16%Z, rest) else (10%Z, str)
    | _ => (10%Z, str)
    end in
  let '(digits, _) := span (if Z.eqb radix 16 then isHexDigit else isDigit) str in
  if String.eqb digits EmptyString then NaN
  else
    let mathInt := digitsValue radix 0 digits in
    toNumber negative mathInt.

End JS.

(** ** The logger, as both files use it *)

Module Logger.
Import JS.

(** A call of [logger.error]: with an error object, or with a string. *)
Inductive LogLine : Type :=
| LogError (err : Error)
| LogText (text : string).

End Logger.

(** ** [src/extensions/auditlog.ts] *)

Module Auditlog.
Import JS Logger.

(** *** The collaborators: gateway and storage *)

(** A [Date], in milliseconds since the epoch. *)
Definition Date : Type := Z.

(** The row type [DatabaseAuditLog] (lines 10-19). *)
Record DatabaseAuditLog : Type := mkAuditLog {
  al_id : Z;
  al_guild_id : string;
  al_user_id : string;
  al_command_id : option string;
  al_message : option string;
  al_timestamp : Date
}.

(** What the code reads of a [Discord.User]: [id], [tag] and
    [displayAvatarURL({ dynamic: true })]. *)
Record User : Type := mkUser {
  usr_id : string;
  usr_tag : string;
  usr_avatar : string
}.

Record Guild : Type := mkGuild { gld_id : string }.

(** What the code reads of a [Discord.Message]; [guild] is [null] outside a
    server.  [message.channel.send] is the action [send] below. *)
Record Message : Type := mkMessage {
  msg_guild : option Guild;
  msg_author : User;
  msg_content : string
}.

(** The fields a [Command] is constructed with (lines 144-153). *)
Record Command : Type := mkCommand {
  cmd_id : string;
  cmd_name : string;
  cmd_category : string;
  cmd_description : string;
  cmd_usage : string;
  cmd_aliases : list string;
  cmd_serverOnly : bool;
  cmd_permissions : Z
}.

(** What the code uses of the [Client]: [client.users.fetch], which may
    reject, and the registered [client.commands]. *)
Record Client : Type := mkClient {
  users_fetch : string -> Result User;
  commands : list Command
}.

Record Context : Type := mkContext {
  client : Client;
  message : Message
}.

(** A [Discord.MessageEmbed], by the setters the code calls.  The description
    is the value handed to [setDescription], an array of strings. *)
Record MessageEmbed : Type := mkEmbed {
  emb_color : option Z;
  emb_title : option string;
  emb_author : option (string * string);
  emb_fields : list (string * string);
  emb_description : option (list string);
  emb_timestamp : option Date
}.

Definition newMessageEmbed : MessageEmbed :=
  mkEmbed None None None [] None None.
Definition setColor (c : Z) (e : MessageEmbed) : MessageEmbed :=
  mkEmbed (Some c) (emb_title e) (emb_author e) (emb_fields e)
    (emb_description e) (emb_timestamp e).
Definition setTitle (s : string) (e : MessageEmbed) : MessageEmbed :=
  mkEmbed (emb_color e) (Some s) (emb_author e) (emb_fields e)
    (emb_description e) (emb_timestamp e).
Definition setAuthor (who icon : string) (e : MessageEmbed) : MessageEmbed :=
  mkEmbed (emb_color e) (emb_title e) (Some (who, icon)) (emb_fields e)
    (emb_description e) (emb_timestamp e).
Definition addField (label value : string) (e : MessageEmbed) : MessageEmbed :=
  mkEmbed (emb_color e) (emb_title e) (emb_author e)
    (emb_fields e ++ [(label, value)]) (emb_description e) (emb_timestamp e).
Definition setDescription (d : list string) (e : MessageEmbed) : MessageEmbed :=
  mkEmbed (emb_color e) (emb_title e) (emb_author e) (emb_fields e)
    (Some d) (emb_timestamp e).
Definition setTimestamp (d : Date) (e : MessageEmbed) : MessageEmbed :=
  mkEmbed (emb_color e) (emb_title e) (emb_author e) (emb_fields e)
    (emb_description e) (Some d).

(** An argument of [message.channel.send]. *)
Inductive Output : Type :=
| Text (content : string)
| Embed (embed : MessageEmbed).

(** The three statements the file gives to [connection.query], with their
    parameters. *)
Inductive Query : Type :=
| InsertAuditLog (guild_id user_id commandID content : string)
| SelectAuditLogs (guild_id : string)
| SelectAuditLog (guild_id : string) (id : number).

Record QueryResult : Type := mkQueryResult {
  rowCount : nat;
  rows : list DatabaseAuditLog
}.

(** Modelled from the spec: the storage collaborator ([../database] and the
    [pg] driver are not among the sources).  It executes a query and returns
    rows or raises a storage fault.  [table] holds the rows of [auditlog] in
    the order a scan returns them, [next_id] is the serial, [clock] is
    [NOW()], [faults] says for each coming query whether it raises ([Some
    err]) or runs, and [issued] records the queries received. *)
Record Storage : Type := mkStorage {
  table : list DatabaseAuditLog;
  next_id : Z;
  clock : Date;
  faults : list (option Error);
  issued : list Query
}.

Definition in_guild (guild_id : string) (row : DatabaseAuditLog) : bool :=
  String.eqb (al_guild_id row) guild_id.

(** Modelled from the spec: what a query that runs does.  The two SELECTs have
    no ORDER BY: the rows come in scan order.  An [id] parameter that is [NaN]
    or an infinity is no integer, and the comparison with the [id] column
    raises. *)
Definition answer (q : Query) (st : Storage) : Result QueryResult * Storage :=
  match q with
  | InsertAuditLog guild_id user_id commandID content =>
      let row := mkAuditLog (next_id st) guild_id user_id (Some commandID)
                   (Some content) (clock st) in
      (Ok (mkQueryResult 1 []),
       mkStorage (table st ++ [row]) (next_id st + 1) (clock st) (faults st)
         (issued st))
  | SelectAuditLogs guild_id =>
      let found := filter (in_guild guild_id) (table st) in
      (Ok (mkQueryResult (length found) found), st)
  | SelectAuditLog guild_id (Finite id) =>
      let found := filter (fun row => in_guild guild_id row && Z.eqb (al_id row) id)
                     (table st) in
      (Ok (mkQueryResult (length found) found), st)
  | SelectAuditLog guild_id NaN =>
      (Throw (mkError "error" "invalid input syntax for type integer"), st)
  | SelectAuditLog guild_id (Infinity _) =>
      (Throw (mkError "error" "invalid input syntax for type integer"), st)
  end.

(** Modelled from the spec: [connection.query(text, params)] on the storage. *)
Definition run_query (q : Query) (st : Storage) : Result QueryResult * Storage :=
  let st' := mkStorage (table st) (next_id st) (clock st) (tl (faults st))
               (issued st ++ [q]) in
  match faults st with
  | Some err :: _ => (Throw err, st')
  | _ => answer q st'
  end.

(** What a run of the extension can change and an observer can see. *)
Record World : Type := mkWorld {
  storage : Storage;
  sent : list Output;
  logged : list LogLine
}.

(** *** Asynchronous functions: state and rejection *)

Definition M (A : Type) : Type := World -> Result A * World.

Definition ret {A : Type} (a : A) : M A := fun w => (Ok a, w).

Definition throw {A : Type} (err : Error) : M A := fun w => (Throw err, w).

Definition bind {A B : Type} (m : M A) (k : A -> M B) : M B :=
  fun w =>
    match m w with
    | (Ok a, w') => k a w'
    | (Throw err, w') => (Throw err, w')
    end.

(** [try { m } catch (err) { handler }]. *)
Definition try_catch {A : Type} (m : M A) (handler : Error -> M A) : M A :=
  fun w =>
    match m w with
    | (Ok a, w') => (Ok a, w')
    | (Throw err, w') => handler err w'
    end.

Declare Scope async_scope.
Delimit Scope async_scope with async.
Notation "x <- m ;; k" := (bind m (fun x => k))
  (at level 100, m at next level, right associativity) : async_scope.
Notation "m ;; k" := (bind m (fun _ => k))
  (at level 100, right associativity) : async_scope.
Local Open Scope async_scope.

(** A call that completes at once, as [client.users.fetch] is modelled. *)
Definition lift {A : Type} (r : Result A) : M A := fun w => (r, w).

(** [logger.error(...)]. *)
Definition logger_error (line : LogLine) : M unit :=
  fun w => (Ok tt, mkWorld (storage w) (sent w) (logged w ++ [line])).

(** [await message.channel.send(...)]: the gateway takes the message. *)
Definition send (o : Output) : M unit :=
  fun w => (Ok tt, mkWorld (storage w) (sent w ++ [o]) (logged w)).

(** A [pg.PoolClient]: the handle of the one storage. *)
Inductive PoolClient : Type := pooled.

(** [await connection.query(...)]. *)
Definition connection_query (connection : PoolClient) (q : Query) : M QueryResult :=
  fun w =>
    let '(r, st) := run_query q (storage w) in
    (r, mkWorld st (sent w) (logged w)).

(** Modelled from the spec: [database.withConnection] acquires a pooled
    connection for the callback and releases it on every exit path. *)
Definition withConnection {A : Type} (callback : PoolClient -> M A) : M A :=
  callback pooled.

(** [message.guild.id], which throws when [message.guild] is [null]. *)
Definition guild_id_of (message : Message) : M string :=
  match msg_guild message with
  | Some guild => ret (gld_id guild)
  | None => throw (TypeError "Cannot read property 'id' of null")
  end.

(** *** [insertAuditLog] (lines 27-45) *)

Definition insertAuditLog (connection : PoolClient) (message : Message)
  (commandID : string) : M unit :=
  try_catch
    (guild_id <- guild_id_of message ;;
     _ <- connection_query connection
            (InsertAuditLog guild_id (usr_id (msg_author message)) commandID
               (msg_content message)) ;;
     ret tt)
    (fun err =>
       logger_error (LogError err) ;;
       logger_error (LogText ("Could not insert into " ++ DQ ++ "auditlog" ++ DQ ++ " table."))).

(** *** The pagination loop (lines 83-93) *)

(** The limit the loop compares against. *)
Definition capacity : nat := 2048.

(** [messageBuffer[messageBuffer.length - 1].push(x)].  The buffer starts as
    [[[]]] and only grows, so the first case is never reached by the loop
    (lemma [pagination_loop_nonempty]). *)
Fixpoint push_last (messageBuffer : list (list string)) (x : string)
  : list (list string) :=
  match messageBuffer with
  | [] => []
  | [page] => [page ++ [x]]
  | page :: rest => page :: push_last rest x
  end.

(** The body of [for (let i = 0; i < formattedArr.length; i++)], on the blocks
    not yet visited, with the two variables the loop updates. *)
Fixpoint pagination_loop (formattedArr : list string)
  (messageBuffer : list (list string)) (buffer : nat) : list (list string) :=
  match formattedArr with
  | [] => messageBuffer
  | formattedStr :: rest =>
      let '(messageBuffer, buffer) :=
        if Nat.ltb capacity (buffer + String.length formattedStr)
        then (messageBuffer ++ [[]], 0)
        else (messageBuffer, buffer) in
      pagination_loop rest
        (push_last messageBuffer (formattedStr ++ LF)%string)
        (buffer + String.length formattedStr)
  end.

(** [const messageBuffer = [[]]; let buffer = 0;] and the loop. *)
Definition paginate (formattedArr : list string) : list (list string) :=
  pagination_loop formattedArr [[]] 0.

(** The characters of a page: every entry pushed on it, separator included. *)
Definition rendered_length (page : list string) : nat :=
  list_sum (map String.length page).

(** [s.slice(0, -1)]: an entry without its last code unit. *)
Fixpoint drop_last (s : string) : string :=
  match s with
  | EmptyString => EmptyString
  | String _ EmptyString => EmptyString
  | String c rest => String c (drop_last rest)
  end.

(** What the loop guarantees of a page: its blocks, counted without their
    separators, fit the capacity, or it holds one block that alone does not. *)
Definition page_ok (page : list string) : Prop :=
  rendered_length page <= capacity + length page \/
  exists b, page = [(b ++ LF)%string] /\ capacity < String.length b.

(** A page that holds a block. *)
Definition nonempty (page : list string) : Prop := page <> [].

(** *** [execute] (lines 47-142) *)

(** What the file imports from modules that are not among the sources:
    [logger.getDateTime], [truncate] and the colour
    [Color.rainbow.skyblue.toColorResolvable()] of [../utils]. *)
Record Imports : Type := mkImports {
  getDateTime : Date -> bool -> string;
  truncate : string -> nat -> string -> bool -> string;
  skyblue : Z
}.

(** [cmd.id === auditLog.command_id], the right side a [string | null]. *)
Definition same_id (cmd : Command) (command_id : option string) : bool :=
  match command_id with
  | Some stored => String.eqb (cmd_id cmd) stored
  | None => false
  end.

(** Lines 72-73 and 129-130:
    [const command = client.commands.find(cmd => cmd.id === auditLog.command_id);]
    [const commandID = command.id ?? auditLog.command_id;]
    When [find] returns [undefined], reading [command.id] throws. *)
Definition resolve_commandID (client : Client) (auditLog : DatabaseAuditLog)
  : M (option string) :=
  match find (fun cmd => same_id cmd (al_command_id auditLog)) (commands client) with
  | Some command => ret (nullish (Some (cmd_id command)) (al_command_id auditLog))
  | None => throw (TypeError "Cannot read property 'id' of undefined")
  end.

Definition spaces (n : nat) : string := repeat_char " " n.

Section WithImports.

Variable imports : Imports.

(** The template literal of lines 75-80, trimmed. *)
Definition format_entry (auditLog : DatabaseAuditLog) (commandID : option string)
  (timestamp : string) (user : User) : string :=
  trim (LF ++ spaces 10 ++ "__**Audit Log #" ++ Z_toString (al_id auditLog)
          ++ ":**__ `" ++ nullable_toString commandID ++ "`"
        ++ LF ++ spaces 10 ++ "**Time:** " ++ timestamp
        ++ LF ++ spaces 10 ++ "**User:** " ++ usr_tag user
        ++ LF ++ spaces 10 ++ "(" ++ al_user_id auditLog ++ ")"
        ++ LF ++ spaces 8)%string.

(** The loop of lines 69-81: one formatted block per row, in row order; the
    result is [formattedArr]. *)
Fixpoint format_rows (client : Client) (rows : list DatabaseAuditLog)
  : M (list string) :=
  match rows with
  | [] => ret []
  | auditLog :: rest =>
      user <- lift (users_fetch client (al_user_id auditLog)) ;;
      commandID <- resolve_commandID client auditLog ;;
      let timestamp := getDateTime imports (al_timestamp auditLog) true in
      formattedArr <- format_rows client rest ;;
      ret (format_entry auditLog commandID timestamp user :: formattedArr)
  end.

(** [block] is what the loop of lines 69-81 pushes for the row [auditLog]:
    its user is fetched, its command is found, and the block is the
    template filled with them. *)
Definition renders (client : Client) (auditLog : DatabaseAuditLog) (block : string)
  : Prop :=
  exists user command,
    users_fetch client (al_user_id auditLog) = Ok user /\
    find (fun cmd => same_id cmd (al_command_id auditLog)) (commands client) = Some command /\
    block = format_entry auditLog (Some (cmd_id command))
              (getDateTime imports (al_timestamp auditLog) true) user.

(** The loop of lines 94-97: one message per page, the one embed reused. *)
Fixpoint send_pages (embed : MessageEmbed) (messageBuffer : list (list string))
  : M unit :=
  match messageBuffer with
  | [] => ret tt
  | formattedStr :: rest =>
      let embed := setDescription formattedStr embed in
      send (Embed embed) ;;
      send_pages embed rest
  end.

(** List mode, lines 52-102. *)
Definition list_mode (client : Client) (message : Message) (embed : MessageEmbed)
  : M unit :=
  try_catch
    (dbResult <- withConnection (fun connection =>
                   guild_id <- guild_id_of message ;;
                   connection_query connection (SelectAuditLogs guild_id)) ;;
     if Nat.ltb (rowCount dbResult) 1
     then send (Text "This server has no audit log entries.")
     else
       formattedArr <- format_rows client (rows dbResult) ;;
       send_pages embed (paginate formattedArr))
    (fun err =>
       logger_error (LogError err) ;;
       send (Text "Could not display audit log. Details have been logged.")).

Definition usage_error : Output :=
  Text "You must specify a valid audit log ID - not a number.".

(** Detail mode, lines 109-141, for the value [id] of [parseInt(args[1])]. *)
Definition detail_mode (client : Client) (message : Message) (embed : MessageEmbed)
  (id : number) : M unit :=
  try_catch
    (dbResult <- withConnection (fun connection =>
                   guild_id <- guild_id_of message ;;
                   connection_query connection (SelectAuditLog guild_id id)) ;;
     if Nat.ltb (rowCount dbResult) 1
     then send (Text ("Could not find audit log by ID `" ++ number_toString id ++ "`."))
     else
       match rows dbResult with
       | [] => throw (TypeError "Cannot read property 'user_id' of undefined")
       | auditLog :: _ =>
           user <- lift (users_fetch client (al_user_id auditLog)) ;;
           commandID <- resolve_commandID client auditLog ;;
           let embed := setTitle ("Audit Log #" ++ number_toString id) embed in
           let embed := setAuthor (usr_tag user ++ " (" ++ usr_id user ++ ")")
                          (usr_avatar user) embed in
           let embed := addField "Command"
                          ("`" ++ nullable_toString commandID ++ "`") embed in
           let embed := addField "Message Text"
                          (truncate imports
                             ("```" ++ LF ++ nullable_toString (al_message auditLog) ++ "```")
                             1024 " ..." true) embed in
           let embed := setTimestamp (al_timestamp auditLog) embed in
           send (Embed embed)
       end)
    (fun err =>
       logger_error (LogText ("Could not search for audit log by ID '" ++ number_toString id ++ "'.")) ;;
       logger_error (LogError err) ;;
       send (Text ("Could not search for audit log by ID `" ++ number_toString id ++ "`."))).

(** [args[1]] once [args.length >= 2]. *)
Definition second (args : list string) : string := nth 1 args EmptyString.

Definition execute (ctx : Context) : M unit :=
  let client := client ctx in
  let message := message ctx in
  let args := split " " (msg_content message) in
  let embed := setColor (skyblue imports) newMessageEmbed in
  if Nat.ltb (length args) 2 then list_mode client message embed
  else if isNaN_Number (second args) then send usage_error
  else
    let id := parseInt (second args) in
    detail_mode client message embed id.

End WithImports.


(** *** The registered command (lines 144-154) *)

(** [Discord.Permissions.FLAGS.MANAGE_GUILD], bit 5. *)
Definition MANAGE_GUILD : Z := 32.

Definition command : Command :=
  mkCommand "auditlog" "Audit Log" "Utility"
    "Display actions taken with the bot." "auditlog [id]"
    ["al"; "audit"; "auditlog"; "auditlogs"] true MANAGE_GUILD.

End Auditlog.

(** ** [src/events/error.ts] *)

Module ErrorEvent.
Import JS Logger.

(** [export const name = 'error';] *)
Definition name : string := "error".

(** The one callback the file hands to [setTimeout]:
    [async () => { await login(); }]. *)
Inductive Callback : Type := Reconnect.

(** A timer armed by [setTimeout] and not yet fired. *)
Record Timer : Type := mkTimer {
  callback : Callback;
  delay : Z
}.

(** What the handler can change: the lines logged, the timers pending (in the
    order they were armed) and the calls of [login] made so far. *)
Record World : Type := mkWorld {
  logged : list LogLine;
  timers : list Timer;
  logins : nat
}.

Definition logger_error (line : LogLine) (w : World) : World :=
  mkWorld (logged w ++ [line]) (timers w) (logins w).

Definition setTimeout (cb : Callback) (ms : Z) (w : World) : World :=
  mkWorld (logged w) (timers w ++ [mkTimer cb ms]) (logins w).

Section WithConfig.

(** [config.reconnectTimeout], of the configuration file. *)
Variable reconnectTimeout : Z.

(** Lines 13-22. *)
Definition execute (err : Error) (w : World) : World :=
  if String.eqb (err_name err) "ENOTFOUND" then
    let w := logger_error
               (LogText "Lost connection to Discord, will attempt reconnect in 30 seconds...") w in
    setTimeout Reconnect reconnectTimeout w
  else logger_error (LogError err) w.

(** Modelled from the spec: when a timer fires its callback invokes the login
    call of [../index], which is not among the sources; the call is counted.
    Timers of one delay fire in the order they were armed. *)
Definition fire (w : World) : World :=
  match timers w with
  | [] => w
  | mkTimer Reconnect _ :: rest => mkWorld (logged w) rest (S (logins w))
  end.

(** What the event loop delivers: a fault on the client's error channel, or
    the expiry of the oldest pending timer. *)
Inductive Event : Type :=
| Fault (err : Error)
| TimerFires.

Definition step (w : World) (ev : Event) : World :=
  match ev with
  | Fault err => execute err w
  | TimerFires => fire w
  end.

Definition run (events : list Event) (w : World) : World :=
  fold_left step events w.

End WithConfig.

(** The process at start: nothing logged, no timer, no login made by a timer. *)
Definition initial : World := mkWorld [] [] 0.

(** The fault [error.ts] recovers from. *)
Definition host_unreachable : Error :=
  mkError "ENOTFOUND" "getaddrinfo ENOTFOUND gateway.discord.gg".

End ErrorEvent.

(** ** Concrete inputs, for the runs evaluated below *)

Module Samples.
Import JS Logger Auditlog.

(** Stand-ins for the imported helpers: they only have to be functions. *)
Definition imports : Imports :=
  mkImports (fun date _ => Z_toString date) (fun text _ _ _ => text) 8900331%Z.

Definition alice : User := mkUser "1001" "alice#0001" "https://cdn.example/alice.png".

(** A client that knows every user and has registered the audit-log command
    only. *)
Definition bot : Client :=
  mkClient (fun id => Ok (mkUser id ("user#" ++ id) "https://cdn.example/avatar.png"))
    [command].

Definition said (content : string) : Context :=
  mkContext bot (mkMessage (Some (mkGuild "g1")) alice content).

Definition entry (id : Z) (command_id : string) : DatabaseAuditLog :=
  mkAuditLog id "g1" "1001" (Some command_id) (Some ("!" ++ command_id)%string) 1600000000000%Z.

(** A world whose table holds the given rows, in that scan order, and whose
    storage raises no fault. *)
Definition world_of (rows : list DatabaseAuditLog) : World :=
  mkWorld (mkStorage rows 100%Z 1600000000000%Z [] []) [] [].

(** A world whose next query raises. *)
Definition failing_world : World :=
  mkWorld (mkStorage [] 1%Z 1600000000000%Z [Some (mkError "error" "connection terminated")] [])
    [] [].

(** Twenty blocks of 102 characters, and one block of exactly 2048. *)
Definition twenty_blocks : list string := repeat (repeat_char "a" 102) 20.
Definition full_block : string := repeat_char "a" 2048.

End Samples.

(** ** Measures used to state what the code keeps *)

Module Measures.
Import JS Auditlog.

(** What [buffer] has counted for a page: its characters without the one
    separator of each entry. *)
Definition counted_length (page : list string) : nat :=
  rendered_length page - length page.

(** The length of the block a page starts with, without its separator. *)
Definition first_counted (page : list string) : nat :=
  match page with
  | [] => 0
  | entry :: _ => String.length entry - 1
  end.

(** Every page but the last was closed because the block that starts the
    next page did not fit on it (the test of line 87). *)
Fixpoint opened_when_full (pages : list (list string)) : Prop :=
  match pages with
  | page :: ((next :: _) as rest) =>
      capacity < counted_length page + first_counted next /\ opened_when_full rest
  | _ => True
  end.

(** The two SELECT statements, as opposed to the INSERT. *)
Definition is_select (q : Query) : bool :=
  match q with
  | InsertAuditLog _ _ _ _ => false
  | SelectAuditLogs _ => true
  | SelectAuditLog _ _ => true
  end.

(** What a run leaves behind, in terms of the world it started from: it
    ended normally, sent at least one message, left the table and the serial
    alone, and issued at most one statement, a SELECT. *)
Definition answered_reading_only (w : World) (r : Result unit * World) : Prop :=
  fst r = Ok tt /\
  (exists o outs, sent (snd r) = sent w ++ o :: outs) /\
  table (storage (snd r)) = table (storage w) /\
  next_id (storage (snd r)) = next_id (storage w) /\
  exists qs,
    issued (storage (snd r)) = issued (storage w) ++ qs /\
    length qs <= 1 /\ forallb is_select qs = true.

(** The entry [insertAuditLog] stores for a message of the guild [guild],
    in the storage [st]. *)
Definition recorded (st : Storage) (guild : Guild) (message : Message)
  (commandID : string) : DatabaseAuditLog :=
  mkAuditLog (next_id st) (gld_id guild) (usr_id (msg_author message))
    (Some commandID) (Some (msg_content message)) (clock st).

(** The faults of an event sequence that the error handler answers with a
    timer, and all its faults. *)
Definition recoverable (ev : ErrorEvent.Event) : bool :=
  match ev with
  | ErrorEvent.Fault err => String.eqb (err_name err) "ENOTFOUND"
  | ErrorEvent.TimerFires => false
  end.

Definition is_fault (ev : ErrorEvent.Event) : bool :=
  match ev with
  | ErrorEvent.Fault _ => true
  | ErrorEvent.TimerFires => false
  end.

(** A message that did not come from a guild. *)
Definition direct_message (author : User) (content : string) : Message :=
  mkMessage None author content.

End Measures.

(** ** Facts about the pagination loop *)

Module PaginationFacts.
Import JS Auditlog.

Lemma length_append (s t : string) :
  String.length (s ++ t)%string = String.length s + String.length t.
Proof. induction s as [|c s IH]; simpl; [reflexivity | now rewrite IH]. Qed.

Lemma length_sep (s : string) : String.length (s ++ LF)%string = S (String.length s).
Proof. rewrite length_append. simpl. lia. Qed.

Lemma drop_last_sep (s : string) : drop_last (s ++ LF)%string = s.
Proof.
  induction s as [|c s IH]; [reflexivity|].
  simpl. rewrite IH. destruct s; reflexivity.
Qed.

Lemma push_last_snoc (init : list (list string)) (page : list string) (x : string) :
  push_last (init ++ [page]) x = init ++ [page ++ [x]].
Proof.
  induction init as [|p init IH]; [reflexivity|].
  simpl. rewrite IH. destruct init; reflexivity.
Qed.

Lemma rendered_length_snoc (page : list string) (x : string) :
  rendered_length (page ++ [x]) = rendered_length page + String.length x.
Proof.
  unfold rendered_length. rewrite map_app, list_sum_app. simpl. lia.
Qed.

(** One turn of the loop, from a buffer whose last page is [page]. *)
Lemma pagination_loop_step (s : string) (rest : list string)
  (init : list (list string)) (page : list string) (buffer : nat) :
  pagination_loop (s :: rest) (init ++ [page]) buffer =
  if Nat.ltb capacity (buffer + String.length s)
  then pagination_loop rest ((init ++ [page]) ++ [[(s ++ LF)%string]]) (String.length s)
  else pagination_loop rest (init ++ [page ++ [(s ++ LF)%string]]) (buffer + String.length s).
Proof.
  simpl. destruct (Nat.ltb capacity (buffer + String.length s)).
  - rewrite (push_last_snoc (init ++ [page]) [] (s ++ LF)). reflexivity.
  - rewrite push_last_snoc. reflexivity.
Qed.

Lemma pagination_loop_nonempty (blocks : list string) :
  forall init page buffer, pagination_loop blocks (init ++ [page]) buffer <> [].
Proof.
  induction blocks as [|s rest IH]; intros init page buffer.
  - simpl. destruct init; discriminate.
  - rewrite pagination_loop_step.
    destruct (Nat.ltb capacity (buffer + String.length s)); apply IH.
Qed.

(** The blocks of all pages, in order, are the blocks already placed followed
    by the blocks visited, each with its separator. *)
Lemma pagination_loop_concat (blocks : list string) :
  forall init page buffer,
    concat (pagination_loop blocks (init ++ [page]) buffer) =
    concat (init ++ [page]) ++ map (fun s => (s ++ LF)%string) blocks.
Proof.
  induction blocks as [|s rest IH]; intros init page buffer.
  - simpl. now rewrite app_nil_r.
  - rewrite pagination_loop_step.
    destruct (Nat.ltb capacity (buffer + String.length s)); rewrite IH.
    + rewrite (concat_app (init ++ [page])). simpl. now rewrite <- app_assoc.
    + rewrite !concat_app. simpl. rewrite !app_nil_r.
      now rewrite <- !app_assoc.
Qed.

Lemma pagination_loop_ok (blocks : list string) :
  forall init page buffer,
    Forall page_ok init ->
    rendered_length page = buffer + length page ->
    (buffer <= capacity \/ exists b, page = [(b ++ LF)%string] /\ capacity < String.length b) ->
    Forall page_ok (pagination_loop blocks (init ++ [page]) buffer).
Proof.
  induction blocks as [|s rest IH]; intros init page buffer Hinit Hlen Hpage.
  - simpl. apply Forall_app. split; [assumption|].
    constructor; [|constructor].
    destruct Hpage as [Hle|Hbig]; [left; lia | right; assumption].
  - rewrite pagination_loop_step.
    destruct (Nat.ltb_spec capacity (buffer + String.length s)) as [Hgt|Hle].
    + apply IH.
      * apply Forall_app. split; [assumption|].
        constructor; [|constructor].
        destruct Hpage as [Hle|Hbig]; [left; lia | right; assumption].
      * unfold rendered_length. simpl. rewrite length_sep. lia.
      * destruct (Nat.le_gt_cases (String.length s) capacity) as [Hs|Hs];
          [left; assumption | right; exists s; split; [reflexivity | assumption]].
    + apply IH.
      * assumption.
      * rewrite rendered_length_snoc, length_sep, length_app. simpl. lia.
      * left. assumption.
Qed.

(** X1: every page the loop produces is within the capacity when its blocks are
    counted without the separators, or is a single oversized block. *)
Lemma paginate_pages_ok (blocks : list string) :
  Forall page_ok (paginate blocks).
Proof.
  apply (pagination_loop_ok blocks [] [] 0).
  - constructor.
  - reflexivity.
  - left. unfold capacity. lia.
Qed.

(** Once the buffer has two pages, the loop leaves the first one alone. *)
Lemma pagination_loop_cons (blocks : list string) :
  forall first init page buffer,
    pagination_loop blocks (first :: init ++ [page]) buffer =
    first :: pagination_loop blocks (init ++ [page]) buffer.
Proof.
  induction blocks as [|s rest IH]; intros first init page buffer; [reflexivity|].
  rewrite (pagination_loop_step s rest (first :: init) page), pagination_loop_step.
  destruct (Nat.ltb capacity (buffer + String.length s)).
  - apply (IH first (init ++ [page]) [(s ++ LF)%string]).
  - apply IH.
Qed.

Lemma pagination_loop_nonempty_pages (blocks : list string) :
  forall init page buffer,
    Forall nonempty init -> nonempty page ->
    Forall nonempty (pagination_loop blocks (init ++ [page]) buffer).
Proof.
  induction blocks as [|s rest IH]; intros init page buffer Hinit Hpage.
  - simpl. apply Forall_app. split; [assumption | repeat constructor; assumption].
  - rewrite pagination_loop_step.
    destruct (Nat.ltb capacity (buffer + String.length s)); apply IH.
    + apply Forall_app. split; [assumption | repeat constructor; assumption].
    + discriminate.
    + assumption.
    + destruct page; discriminate.
Qed.

(** After an oversized block the next block opens a page of its own. *)
Lemma pagination_loop_after_oversized (blocks : list string) (page : list string)
  (buffer : nat) :
  capacity < buffer ->
  exists others,
    pagination_loop blocks [page] buffer = page :: others /\
    Forall nonempty others.
Proof.
  intros Hbig. destruct blocks as [|s rest].
  - exists []. split; [reflexivity | constructor].
  - rewrite (pagination_loop_step s rest [] page).
    destruct (Nat.ltb_spec capacity (buffer + String.length s)) as [_|Hle]; [|lia].
    exists (pagination_loop rest [[(s ++ LF)%string]] (String.length s)). split.
    + apply (pagination_loop_cons rest page [] [(s ++ LF)%string]).
    + apply (pagination_loop_nonempty_pages rest [] [(s ++ LF)%string]);
        [constructor | discriminate].
Qed.

(** The emission loop sends one embed per page, in page order, and changes
    nothing else. *)
Lemma send_pages_sent (pages : list (list string)) :
  forall embed w,
    send_pages embed pages w =
    (Ok tt, Auditlog.mkWorld (storage w)
              (sent w ++ map (fun page => Embed (setDescription page embed)) pages)
              (Auditlog.logged w)).
Proof.
  induction pages as [|page rest IH]; intros embed w.
  - simpl. unfold ret. rewrite app_nil_r. destruct w; reflexivity.
  - simpl. unfold bind, send. rewrite IH. simpl. rewrite <- app_assoc. reflexivity.
Qed.

Lemma paginate_concat (blocks : list string) :
  concat (paginate blocks) = map (fun s => (s ++ LF)%string) blocks.
Proof. apply (pagination_loop_concat blocks [] [] 0). Qed.

(** The example of the specification: two blocks of 2000 characters give two
    pages of one block each. *)
Example paginate_two_large_blocks :
  paginate [repeat_char "a" 2000; repeat_char "b" 2000] =
  [[(repeat_char "a" 2000 ++ LF)%string]; [(repeat_char "b" 2000 ++ LF)%string]].
Proof. vm_compute. reflexivity. Qed.

(** C1 (the code departs from the claim): the loop counts a block without the
    separator it appends, so a page of several blocks, none of them oversized,
    is rendered longer than the capacity.  Twenty blocks of 102 characters
    land on one page of 2060 characters; a single block of exactly 2048
    characters is rendered in 2049. *)
Theorem paginate_page_over_capacity :
  Forall (fun b => String.length b <= capacity) Samples.twenty_blocks /\
  (exists page,
     paginate Samples.twenty_blocks = [page] /\
     length page = 20 /\
     rendered_length page = 2060 /\
     capacity < rendered_length page) /\
  String.length Samples.full_block <= capacity /\
  paginate [Samples.full_block] = [[(Samples.full_block ++ LF)%string]] /\
  rendered_length [(Samples.full_block ++ LF)%string] = 2049.
Proof.
  split; [|split; [|split; [|split]]].
  - unfold Samples.twenty_blocks. apply Forall_forall. intros b Hb.
    apply repeat_spec in Hb. subst b. vm_compute. lia.
  - eexists. split; [vm_compute; reflexivity|].
    split; [reflexivity|]. split; [vm_compute; reflexivity|].
    vm_compute. lia.
  - vm_compute. lia.
  - vm_compute. reflexivity.
  - vm_compute. reflexivity.
Qed.

(** C2: the blocks of all pages, read in page order, are the input blocks in
    input order, each with the separator appended; without the separator
    they are the input itself: nothing lost, repeated or reordered. *)
Theorem paginate_preserves_blocks (blocks : list string) :
  concat (paginate blocks) = map (fun s => (s ++ LF)%string) blocks /\
  map drop_last (concat (paginate blocks)) = blocks.
Proof.
  split; [apply paginate_concat|].
  rewrite paginate_concat, map_map. rewrite <- (map_id blocks) at 2.
  apply map_ext. intros s. apply drop_last_sep.
Qed.

(** C9: when the first block is longer than the capacity, the first page is
    empty and the second holds that block alone; a later page is never
    empty; with a non-empty input an empty page arises in no other way; and
    the emission loop sends one embed per page, the empty one included. *)
Theorem paginate_leading_empty_page (b : string) (rest : list string) :
  (capacity < String.length b ->
     exists others,
       paginate (b :: rest) = [] :: [(b ++ LF)%string] :: others /\
       Forall nonempty others) /\
  (In [] (paginate (b :: rest)) -> capacity < String.length b) /\
  (forall embed w,
     sent (snd (send_pages embed (paginate (b :: rest)) w)) =
     sent w ++ map (fun page => Embed (setDescription page embed))
                 (paginate (b :: rest))).
Proof.
  split; [|split].
  - intros Hbig. unfold paginate.
    rewrite (pagination_loop_step b rest [] []).
    destruct (Nat.ltb_spec capacity (0 + String.length b)) as [_|Hle];
      [|simpl in Hle; lia].
    rewrite (pagination_loop_cons rest [] [] [(b ++ LF)%string]).
    destruct (pagination_loop_after_oversized rest [(b ++ LF)%string]
                (String.length b) Hbig) as [others [Heq Hne]].
    exists others. simpl. rewrite Heq. split; [reflexivity | assumption].
  - intros Hin.
    destruct (Nat.le_gt_cases (String.length b) capacity) as [Hle|Hgt];
      [exfalso | assumption].
    unfold paginate in Hin. rewrite (pagination_loop_step b rest [] []) in Hin.
    destruct (Nat.ltb_spec capacity (0 + String.length b)) as [Hlt|_];
      [simpl in Hlt; lia|].
    assert (Hall : Forall nonempty
                     (pagination_loop rest ([] ++ [[] ++ [(b ++ LF)%string]])
                        (0 + String.length b)))
      by (apply pagination_loop_nonempty_pages; [constructor | discriminate]).
    rewrite Forall_forall in Hall. apply (Hall [] Hin). reflexivity.
  - intros embed w. rewrite send_pages_sent. reflexivity.
Qed.

(** A first block of 2049 characters followed by a short one: three pages,
    the first of them empty. *)
Lemma paginate_leading_empty_page_witness :
  capacity < String.length (repeat_char "a" 2049) /\
  exists others,
    paginate [repeat_char "a" 2049; "b"] =
    [] :: [(repeat_char "a" 2049 ++ LF)%string] :: others /\
    Forall nonempty others.
Proof.
  split; [vm_compute; lia|].
  apply (proj1 (paginate_leading_empty_page (repeat_char "a" 2049) ["b"])).
  vm_compute; lia.
Defined.

(** *** The number of pages, and when a page is opened *)

Import Measures.

Lemma pagination_loop_length (blocks : list string) :
  forall init page buffer,
    S (length init) <= length (pagination_loop blocks (init ++ [page]) buffer) /\
    length (pagination_loop blocks (init ++ [page]) buffer)
      <= S (length init) + length blocks.
Proof.
  induction blocks as [|s rest IH]; intros init page buffer.
  - simpl. rewrite length_app. simpl. lia.
  - rewrite pagination_loop_step.
    destruct (Nat.ltb capacity (buffer + String.length s)).
    + specialize (IH (init ++ [page]) [(s ++ LF)%string] (String.length s)).
      rewrite length_app in IH. simpl in *. lia.
    + specialize (IH init (page ++ [(s ++ LF)%string]) (buffer + String.length s)).
      simpl. lia.
Qed.

(** X2: the loop never returns an empty buffer and never opens more pages
    than there are blocks: between one page and one more than the number of
    blocks. *)
Theorem paginate_page_count (blocks : list string) :
  1 <= length (paginate blocks) <= S (length blocks).
Proof.
  exact (pagination_loop_length blocks [] [] 0).
Qed.

Lemma pagination_loop_fits (blocks : list string) :
  forall init page buffer,
    buffer + list_sum (map String.length blocks) <= capacity ->
    pagination_loop blocks (init ++ [page]) buffer =
    init ++ [page ++ map (fun s => (s ++ LF)%string) blocks].
Proof.
  induction blocks as [|s rest IH]; intros init page buffer Hfit.
  - simpl. now rewrite app_nil_r.
  - rewrite pagination_loop_step. simpl in Hfit.
    destruct (Nat.ltb_spec capacity (buffer + String.length s)) as [Hgt|_]; [lia|].
    rewrite IH by lia. simpl. now rewrite <- app_assoc.
Qed.

Lemma pagination_loop_overflows (blocks : list string) :
  forall init page buffer,
    buffer <= capacity ->
    capacity < buffer + list_sum (map String.length blocks) ->
    S (S (length init)) <= length (pagination_loop blocks (init ++ [page]) buffer).
Proof.
  induction blocks as [|s rest IH]; intros init page buffer Hbuffer Hover.
  - simpl in Hover. lia.
  - rewrite pagination_loop_step. simpl in Hover.
    destruct (Nat.ltb_spec capacity (buffer + String.length s)) as [Hgt|Hle].
    + pose proof (pagination_loop_length rest (init ++ [page]) [(s ++ LF)%string]
                    (String.length s)) as [Hlow _].
      rewrite length_app in Hlow. simpl in Hlow. lia.
    + apply IH; lia.
Qed.

(** X3: the blocks share one page exactly when their lengths, separators
    not counted, sum to at most 2048; the page then holds all of them in
    order.  A longer input gives at least two pages. *)
Theorem paginate_single_page (blocks : list string) :
  (list_sum (map String.length blocks) <= capacity ->
     paginate blocks = [map (fun s => (s ++ LF)%string) blocks]) /\
  (capacity < list_sum (map String.length blocks) ->
     2 <= length (paginate blocks)).
Proof.
  split; intros H.
  - apply (pagination_loop_fits blocks [] [] 0). exact H.
  - apply (pagination_loop_overflows blocks [] [] 0); [unfold capacity; lia | exact H].
Qed.

(** Three blocks of 600 characters fit one page; four do not. *)
Lemma paginate_single_page_witness :
  paginate (repeat (repeat_char "a" 600) 3) =
    [map (fun s => (s ++ LF)%string) (repeat (repeat_char "a" 600) 3)] /\
  2 <= length (paginate (repeat (repeat_char "a" 600) 4)).
Proof.
  split.
  - apply (proj1 (paginate_single_page (repeat (repeat_char "a" 600) 3))).
    vm_compute. lia.
  - apply (proj2 (paginate_single_page (repeat (repeat_char "a" 600) 4))).
    vm_compute. lia.
Defined.

Lemma opened_when_full_cons (page next : list string) (rest : list (list string)) :
  opened_when_full (page :: next :: rest) <->
  capacity < counted_length page + first_counted next /\
  opened_when_full (next :: rest).
Proof. reflexivity. Qed.

(** Only the first block of the last page matters to the pages before it. *)
Lemma opened_when_full_last (init : list (list string)) (page page' : list string) :
  first_counted page' = first_counted page ->
  opened_when_full (init ++ [page]) ->
  opened_when_full (init ++ [page']).
Proof.
  intros Hfirst. induction init as [|p init IH]; intros Hopen; [exact I|].
  destruct init as [|q init].
  - simpl in *. rewrite Hfirst. exact Hopen.
  - change ((p :: q :: init) ++ [page']) with (p :: q :: (init ++ [page'])).
    change ((p :: q :: init) ++ [page]) with (p :: q :: (init ++ [page])) in Hopen.
    apply opened_when_full_cons in Hopen. apply opened_when_full_cons.
    split; [apply Hopen | apply IH, Hopen].
Qed.

Lemma opened_when_full_snoc (init : list (list string)) (page next : list string) :
  capacity < counted_length page + first_counted next ->
  opened_when_full (init ++ [page]) ->
  opened_when_full ((init ++ [page]) ++ [next]).
Proof.
  intros Hfull. induction init as [|p init IH]; intros Hopen.
  - simpl. split; [exact Hfull | exact I].
  - destruct init as [|q init].
    + simpl in *. split; [apply Hopen | split; [exact Hfull | exact I]].
    + change (((p :: q :: init) ++ [page]) ++ [next])
        with (p :: q :: ((init ++ [page]) ++ [next])).
      change ((p :: q :: init) ++ [page]) with (p :: q :: (init ++ [page])) in Hopen.
      apply opened_when_full_cons in Hopen. apply opened_when_full_cons.
      split; [apply Hopen | apply IH, Hopen].
Qed.

Lemma pagination_loop_opened_when_full (blocks : list string) :
  forall init page buffer,
    opened_when_full (init ++ [page]) ->
    rendered_length page = buffer + length page ->
    (init = [] \/ page <> []) ->
    opened_when_full (pagination_loop blocks (init ++ [page]) buffer).
Proof.
  induction blocks as [|s rest IH]; intros init page buffer Hopen Hlen Hshape;
    [exact Hopen|].
  rewrite pagination_loop_step.
  destruct (Nat.ltb_spec capacity (buffer + String.length s)) as [Hgt|Hle].
  - apply IH.
    + apply opened_when_full_snoc; [|exact Hopen].
      unfold counted_length, first_counted. rewrite Hlen, length_sep. lia.
    + unfold rendered_length. simpl. rewrite length_sep. lia.
    + right. discriminate.
  - apply IH.
    + destruct Hshape as [-> | Hpage]; [exact I|].
      apply (opened_when_full_last init page); [|exact Hopen].
      destruct page; [contradiction | reflexivity].
    + rewrite rendered_length_snoc, length_sep, length_app. simpl. lia.
    + right. destruct page; discriminate.
Qed.

(** X4: a page is closed only when it has to be.  For any two consecutive
    pages of the result, the characters counted on the first plus the length
    of the block that starts the second exceed 2048. *)
Theorem paginate_opens_page_when_full (blocks : list string) :
  opened_when_full (paginate blocks).
Proof.
  apply (pagination_loop_opened_when_full blocks [] [] 0);
    [exact I | reflexivity | left; reflexivity].
Qed.

End PaginationFacts.

(** ** Facts about reading numbers from strings *)

Module JSFacts.
Import JS.

(** A digit is no white space, no sign, no radix letter and no other
    character the number grammar gives a meaning to. *)
Lemma digit_is_plain (c : ascii) :
  isDigit c = true ->
  isWhiteSpace c = false /\ isSign c = false /\
  (Ascii.eqb c "x" || Ascii.eqb c "X") = false /\
  (Ascii.eqb c "o" || Ascii.eqb c "O") = false /\
  (Ascii.eqb c "b" || Ascii.eqb c "B") = false /\
  Ascii.eqb c "I" = false /\ Ascii.eqb c "." = false /\ Ascii.eqb c "-" = false.
Proof.
  destruct c as [[|] [|] [|] [|] [|] [|] [|] [|]]; vm_compute; intros H;
    try discriminate H; repeat split.
Qed.

Lemma span_all (p : ascii -> bool) (s : string) :
  forallChars p s = true -> span p s = (s, EmptyString).
Proof.
  induction s as [|c s IH]; simpl; [reflexivity|].
  intros H. apply andb_true_iff in H. destruct H as [Hc Hs].
  rewrite Hc, (IH Hs). reflexivity.
Qed.

Lemma trimEnd_plain (s : string) :
  forallChars (fun c => negb (isWhiteSpace c)) s = true -> trimEnd s = s.
Proof.
  induction s as [|c s IH]; [reflexivity|].
  intros H. cbn [forallChars] in H. apply andb_true_iff in H. destruct H as [Hc Hs].
  cbn [trimEnd]. rewrite (IH Hs). apply negb_true_iff in Hc. rewrite Hc.
  destruct s; reflexivity.
Qed.

Lemma digits_plain (s : string) :
  forallChars isDigit s = true ->
  forallChars (fun c => negb (isWhiteSpace c)) s = true.
Proof.
  induction s as [|c s IH]; [reflexivity|].
  cbn [forallChars]. intros H. apply andb_true_iff in H. destruct H as [Hc Hs].
  destruct (digit_is_plain c Hc) as [Hws _]. rewrite Hws, (IH Hs). reflexivity.
Qed.

Lemma digit_is_not_minus (c : ascii) :
  isDigit c = true ->
  match c with "-"%char => true | _ => false end = false.
Proof.
  destruct c as [[|] [|] [|] [|] [|] [|] [|] [|]]; vm_compute; intros H;
    try discriminate H; reflexivity.
Qed.

Lemma digits_keep_radix_10 (c : ascii) (r : string) :
  forallChars isDigit r = true ->
  match c with
  | "0"%char =>
      match r with
      | EmptyString => (10%Z, String c r)
      | String c0 rest =>
          if Ascii.eqb c0 "x" || Ascii.eqb c0 "X" then (16%Z, rest)
          else (10%Z, String c r)
      end
  | _ => (10%Z, String c r)
  end = (10%Z, String c r).
Proof.
  intros Hr. destruct r as [|c0 rest].
  - destruct c as [[|] [|] [|] [|] [|] [|] [|] [|]]; reflexivity.
  - cbn [forallChars] in Hr. apply andb_true_iff in Hr. destruct Hr as [Hc0 _].
    destruct (digit_is_plain c0 Hc0) as [_ [_ [Hx _]]]. rewrite Hx.
    destruct c as [[|] [|] [|] [|] [|] [|] [|] [|]]; reflexivity.
Qed.

(** Rounding to a double leaves an integer below 2^53 as it is, and such an
    integer prints as its digits. *)
Lemma toNumber_exact (v : Z) :
  (0 <= v < 2 ^ 53)%Z -> toNumber false v = Finite v.
Proof.
  intros [_ Hlt]. unfold toNumber, nearest_double.
  destruct (Z.ltb_spec v (2 ^ 53)) as [_|Hge]; [reflexivity | lia].
Qed.

Lemma number_toString_exact (z : Z) :
  (Z.abs z < 2 ^ 53)%Z -> number_toString (Finite z) = Z_toString z.
Proof.
  intros Hlt. unfold number_toString.
  destruct (Z.ltb_spec (Z.abs z) (2 ^ 53)) as [_|Hge]; [reflexivity | lia].
Qed.

Lemma parseInt_digits (s : string) :
  isDigits isDigit s = true -> parseInt s = toNumber false (digitsValue 10 0 s).
Proof.
  unfold isDigits. intros H. apply andb_true_iff in H. destruct H as [Hne Hall].
  destruct s as [|c r]; [discriminate|].
  pose proof Hall as Hall'. cbn [forallChars] in Hall'.
  apply andb_true_iff in Hall'. destruct Hall' as [Hc Hr].
  destruct (digit_is_plain c Hc) as [Hws [Hsign _]].
  unfold parseInt. cbn [trimStart]. rewrite Hws.
  unfold stripSign. rewrite Hsign.
  rewrite (digits_keep_radix_10 c r Hr), (digit_is_not_minus c Hc).
  cbv beta iota zeta. change (Z.eqb 10 16) with false. cbv iota.
  rewrite (span_all isDigit _ Hall). reflexivity.
Qed.

Lemma numeric_of_digits (c : ascii) (r : string) :
  forallChars isDigit (String c r) = true ->
  isStrNumericLiteral (String c r) = true.
Proof.
  intros Hall. pose proof Hall as Hall'. cbn [forallChars] in Hall'.
  apply andb_true_iff in Hall'. destruct Hall' as [Hc Hr].
  destruct (digit_is_plain c Hc) as [_ [Hsign [_ [_ [_ [HI _]]]]]].
  assert (Hdec : isStrUnsignedDecimalLiteral (String c r) = true).
  { unfold isStrUnsignedDecimalLiteral. cbn [String.eqb]. rewrite HI.
    rewrite (span_all isDigit _ Hall). reflexivity. }
  unfold isStrNumericLiteral, stripSign. rewrite Hsign, Hdec.
  destruct r as [|c0 rest].
  - destruct c as [[|] [|] [|] [|] [|] [|] [|] [|]]; reflexivity.
  - cbn [forallChars] in Hr. apply andb_true_iff in Hr. destruct Hr as [Hc0 _].
    destruct (digit_is_plain c0 Hc0) as [_ [_ [Hx [Ho [Hb _]]]]].
    rewrite Hx, Ho, Hb.
    destruct c as [[|] [|] [|] [|] [|] [|] [|] [|]]; reflexivity.
Qed.

Lemma isNaN_Number_digits (s : string) :
  isDigits isDigit s = true -> isNaN_Number s = false.
Proof.
  unfold isDigits. intros H. apply andb_true_iff in H. destruct H as [Hne Hall].
  destruct s as [|c r]; [discriminate|].
  pose proof Hall as Hall'. cbn [forallChars] in Hall'.
  apply andb_true_iff in Hall'. destruct Hall' as [Hc Hr].
  destruct (digit_is_plain c Hc) as [Hws _].
  unfold isNaN_Number, trim. cbn [trimStart]. rewrite Hws.
  rewrite (trimEnd_plain _ (digits_plain _ Hall)).
  cbn [String.eqb]. rewrite (numeric_of_digits c r Hall). reflexivity.
Qed.

(** The decimal digits of a number, read back. *)
Lemma digitsValue_acc (d : Decimal.uint) :
  forall acc : positive,
    digitsValue 10 (Z.pos acc) (NilEmpty.string_of_uint d) =
    Z.pos (Pos.of_uint_acc d acc).
Proof.
  induction d; intros acc; cbn [NilEmpty.string_of_uint digitsValue Pos.of_uint_acc];
    [reflexivity | rewrite <- IHd; f_equal; vm_compute digitValue; lia ..].
Qed.

Lemma digitsValue_of_uint (d : Decimal.uint) :
  digitsValue 10 0 (NilEmpty.string_of_uint d) = Z.of_uint d.
Proof.
  unfold Z.of_uint.
  induction d; cbn [NilEmpty.string_of_uint digitsValue Pos.of_uint];
    [reflexivity | exact IHd | apply (digitsValue_acc d) ..].
Qed.

Lemma string_of_uint_digits (d : Decimal.uint) :
  forallChars isDigit (NilEmpty.string_of_uint d) = true.
Proof. induction d; cbn [NilEmpty.string_of_uint forallChars]; auto. Qed.

Lemma Z_toString_digits (z : Z) :
  (0 <= z)%Z ->
  isDigits isDigit (Z_toString z) = true /\
  digitsValue 10 0 (Z_toString z) = z.
Proof.
  intros Hz. unfold Z_toString.
  pose proof (DecimalZ.of_to z) as Hback.
  destruct (Z.to_int z) as [d|d] eqn:Hint.
  - cbn [Z.of_int] in Hback. unfold NilZero.string_of_int, NilZero.string_of_uint.
    destruct d; try (split; [reflexivity | exact Hback]);
      (split; [unfold isDigits; rewrite string_of_uint_digits; reflexivity
              | rewrite digitsValue_of_uint; exact Hback]).
  - destruct z; cbn [Z.to_int] in Hint; try discriminate Hint. lia.
Qed.

(** Ids beyond 2^53 are read and printed as the doubles they round to: the
    digits of 2^53 + 1 give 2^53, twenty-one digits still print in full, and
    from 10^21 on the exponent form is used. *)
Example large_ids_are_doubles :
  number_toString (parseInt "9007199254740993") = "9007199254740992" /\
  number_toString (parseInt "1152921504606846976") = "1152921504606847000" /\
  number_toString (parseInt "123456789012345678901") = "123456789012345680000" /\
  number_toString (parseInt "1000000000000000000000") = "1e+21" /\
  number_toString (parseInt "-1180591620717411303424") = "-1.1805916207174113e+21".
Proof. vm_compute. repeat split. Qed.

(** A string without the separator is one token. *)
Lemma split_one_token (sep : ascii) (s : string) :
  forallChars (fun c => negb (Ascii.eqb c sep)) s = true ->
  split sep s = [s].
Proof.
  induction s as [|c s IH]; [reflexivity|].
  cbn [forallChars split]. intros H. apply andb_true_iff in H. destruct H as [Hc Hs].
  apply negb_true_iff in Hc. rewrite Hc, (IH Hs). reflexivity.
Qed.

Lemma split_token_then (sep : ascii) (s rest : string) :
  forallChars (fun c => negb (Ascii.eqb c sep)) s = true ->
  split sep (s ++ String sep rest) = s :: split sep rest.
Proof.
  induction s as [|c s IH].
  - intros _. cbn [String.append split]. rewrite Ascii.eqb_refl. reflexivity.
  - cbn [forallChars String.append split]. intros H.
    apply andb_true_iff in H. destruct H as [Hc Hs].
    apply negb_true_iff in Hc. rewrite Hc, (IH Hs). reflexivity.
Qed.

Lemma digits_hold_no_space (s : string) :
  forallChars isDigit s = true ->
  forallChars (fun c => negb (Ascii.eqb c " ")) s = true.
Proof.
  induction s as [|c s IH]; [reflexivity|].
  cbn [forallChars]. intros H. apply andb_true_iff in H. destruct H as [Hc Hs].
  rewrite (IH Hs), andb_true_r. apply negb_true_iff.
  destruct c as [[|] [|] [|] [|] [|] [|] [|] [|]]; try reflexivity;
    vm_compute in Hc; discriminate Hc.
Qed.

End JSFacts.

(** ** Facts about the audit-log command *)

Module AuditlogFacts.
Import JS Logger Auditlog PaginationFacts.

(** Looking up a command id that no registered command has throws. *)
Lemma resolve_commandID_unregistered (client : Client) (auditLog : DatabaseAuditLog)
  (w : World) :
  (forall cmd, In cmd (commands client) -> al_command_id auditLog <> Some (cmd_id cmd)) ->
  resolve_commandID client auditLog w =
  (Throw (TypeError "Cannot read property 'id' of undefined"), w).
Proof.
  intros Hnone. unfold resolve_commandID.
  destruct (find _ (commands client)) as [cmd|] eqn:Hfind; [exfalso | reflexivity].
  apply find_some in Hfind. destruct Hfind as [Hin Hsame].
  apply (Hnone cmd Hin). unfold same_id in Hsame.
  destruct (al_command_id auditLog) as [stored|]; [|discriminate].
  apply String.eqb_eq in Hsame. now subst.
Qed.

(** C4 (the code departs from the claim): a stored command id that no
    registered command has does not fall back to the stored string.  [find]
    returns [undefined], reading [command.id] throws, and the [catch] turns
    the throw into the generic failure notice, in list mode and in detail
    mode alike. *)
Theorem unregistered_command_id_faults :
  let row := Samples.entry 1 "purge" in
  let w := Samples.world_of [row] in
  fst (resolve_commandID Samples.bot row w) =
    Throw (TypeError "Cannot read property 'id' of undefined") /\
  sent (snd (execute Samples.imports (Samples.said "!auditlog") w)) =
    [Text "Could not display audit log. Details have been logged."] /\
  Auditlog.logged (snd (execute Samples.imports (Samples.said "!auditlog") w)) =
    [LogError (TypeError "Cannot read property 'id' of undefined")] /\
  sent (snd (execute Samples.imports (Samples.said "!auditlog 1") w)) =
    [Text "Could not search for audit log by ID `1`."] /\
  Auditlog.logged (snd (execute Samples.imports (Samples.said "!auditlog 1") w)) =
    [LogText "Could not search for audit log by ID '1'.";
     LogError (TypeError "Cannot read property 'id' of undefined")].
Proof. vm_compute. repeat split. Qed.

(** C5: [insertAuditLog] always returns normally and sends nothing.  For a
    message of a guild: when the insert raises, the error and the notice are
    logged and the table is as it was; when it runs, the table gains exactly
    one row, holding the guild id, the author id, the command id and the
    text of the message, and nothing is logged. *)
Theorem insertAuditLog_never_raises (connection : PoolClient) (message : Message)
  (commandID : string) (w : World) :
  let w' := snd (insertAuditLog connection message commandID w) in
  fst (insertAuditLog connection message commandID w) = Ok tt /\
  sent w' = sent w /\
  forall guild, msg_guild message = Some guild ->
    match faults (storage w) with
    | Some err :: _ =>
        table (storage w') = table (storage w) /\
        Auditlog.logged w' =
          Auditlog.logged w ++
          [LogError err;
           LogText ("Could not insert into " ++ DQ ++ "auditlog" ++ DQ ++ " table.")]
    | _ =>
        table (storage w') =
          table (storage w) ++
          [mkAuditLog (next_id (storage w)) (gld_id guild)
             (usr_id (msg_author message)) (Some commandID)
             (Some (msg_content message)) (clock (storage w))] /\
        Auditlog.logged w' = Auditlog.logged w
    end.
Proof.
  unfold insertAuditLog, try_catch, bind, guild_id_of, connection_query, run_query.
  destruct (msg_guild message) as [guild|].
  - unfold ret. destruct (faults (storage w)) as [|[err|] fs]; simpl;
      (split; [reflexivity|]); (split; [reflexivity|]);
      intros g Hg; injection Hg as <-; simpl;
      try rewrite <- app_assoc; split; reflexivity.
  - simpl. split; [reflexivity|]. split; [reflexivity|]. intros g Hg. discriminate.
Qed.

(** A run whose insert raises, and a run whose insert goes through. *)
Lemma insertAuditLog_never_raises_witness :
  fst (insertAuditLog pooled (Auditlog.message (Samples.said "!auditlog")) "auditlog"
         Samples.failing_world) = Ok tt /\
  length (table (storage (snd (insertAuditLog pooled
            (Auditlog.message (Samples.said "!auditlog")) "auditlog"
            (Samples.world_of []))))) = 1.
Proof.
  split.
  - apply (insertAuditLog_never_raises pooled
             (Auditlog.message (Samples.said "!auditlog")) "auditlog"
             Samples.failing_world).
  - pose proof (insertAuditLog_never_raises pooled
                  (Auditlog.message (Samples.said "!auditlog")) "auditlog"
                  (Samples.world_of [])) as H.
    destruct H as [_ [_ H]]. specialize (H (mkGuild "g1") eq_refl).
    exact (f_equal (@length _) (proj1 H)).
Defined.

(** The end of every path through detail mode: one message was sent, it is
    not the usage error, and the queries issued are as stated. *)
Ltac one_message :=
  split; [eexists; split; [reflexivity | discriminate] | reflexivity].

(** The paths through detail mode once the storage has answered. *)
Ltac answered client id w :=
  destruct id as [|z|negative]; simpl; [one_message| |one_message];
  destruct (filter _ (table (storage w))) as [|auditLog others]; simpl;
  [one_message|];
  unfold lift, resolve_commandID;
  destruct (users_fetch client (al_user_id auditLog)) as [user|err']; simpl;
  [|one_message];
  destruct (find _ (commands client)) as [command|]; simpl; one_message.

(** Detail mode ends normally, sends one message, which is not the usage
    error, and issues the query for [id] when the message has a guild. *)
Lemma detail_mode_trace (imports : Imports) (client : Client) (message : Message)
  (embed : MessageEmbed) (id : number) (w : World) :
  let w' := snd (detail_mode imports client message embed id w) in
  (exists o, sent w' = sent w ++ [o] /\ o <> usage_error) /\
  issued (storage w') =
    issued (storage w) ++
    match msg_guild message with
    | Some guild => [SelectAuditLog (gld_id guild) id]
    | None => []
    end.
Proof.
  unfold detail_mode, try_catch, bind, withConnection, guild_id_of,
    connection_query, run_query.
  destruct (msg_guild message) as [guild|]; simpl.
  2:{ rewrite app_nil_r. one_message. }
  destruct (faults (storage w)) as [|[err|] fs]; simpl;
    [answered client id w | one_message | answered client id w].
Qed.




(** C10: a second token that [Number] does not read as [NaN] passes the
    check, whatever else it is: the text of line 106 is not sent, and the one
    query issued (for a message of a guild) selects the entry whose id is
    [parseInt] of the token, a double.  The token [12.5] passes and selects
    id 12; the digits of 2^53 + 1 pass and select 2^53. *)
Theorem detail_mode_queries_parseInt (imports : Imports) (ctx : Context) (w : World) :
  let args := split " " (msg_content (message ctx)) in
  2 <= length args ->
  isNaN_Number (second args) = false ->
  let w' := snd (execute imports ctx w) in
  (exists o,
     sent w' = sent w ++ [o] /\
     o <> Text "You must specify a valid audit log ID - not a number.") /\
  issued (storage w') =
    issued (storage w) ++
    match msg_guild (message ctx) with
    | Some guild => [SelectAuditLog (gld_id guild) (parseInt (second args))]
    | None => []
    end /\
  isNaN_Number "12.5" = false /\ parseInt "12.5" = Finite 12 /\
  isNaN_Number "9007199254740993" = false /\
  parseInt "9007199254740993" = Finite 9007199254740992.
Proof.
  intros args Hlen Hnum. unfold execute. fold args.
  destruct (Nat.ltb_spec (length args) 2) as [Hlt|_]; [lia|].
  rewrite Hnum.
  pose proof (detail_mode_trace imports (client ctx) (message ctx)
                (setColor (skyblue imports) newMessageEmbed)
                (parseInt (second args)) w) as [Hsent Hissued].
  split; [exact Hsent|]. split; [exact Hissued|].
  vm_compute. repeat split.
Qed.

(** The invocation [!auditlog 12.5] on a table that holds entry 12. *)
Lemma detail_mode_queries_parseInt_witness :
  issued (storage (snd (execute Samples.imports (Samples.said "!auditlog 12.5")
                          (Samples.world_of [Samples.entry 12 "auditlog"])))) =
  [SelectAuditLog "g1" (Finite 12)].
Proof.
  pose proof (detail_mode_queries_parseInt Samples.imports
                (Samples.said "!auditlog 12.5")
                (Samples.world_of [Samples.entry 12 "auditlog"])) as H.
  assert (Hlen : 2 <= length (split " " "!auditlog 12.5")) by (vm_compute; lia).
  assert (Hnum : isNaN_Number (second (split " " "!auditlog 12.5")) = false)
    by (vm_compute; reflexivity).
  exact (proj1 (proj2 (H Hlen Hnum))).
Defined.

(** When every row can be rendered, the blocks are the rows' blocks, in row
    order, and formatting changes nothing in the world. *)
Lemma format_rows_ok (imports : Imports) (client : Client)
  (rows : list DatabaseAuditLog) :
  Forall (fun row => exists block, renders imports client row block) rows ->
  exists blocks,
    Forall2 (renders imports client) rows blocks /\
    forall w, format_rows imports client rows w = (Ok blocks, w).
Proof.
  induction rows as [|row rest IH]; intros Hall.
  - exists []. split; [constructor | reflexivity].
  - inversion Hall as [|? ? [block Hblock] Hrest]; subst.
    destruct (IH Hrest) as [blocks [Hblocks Hrun]].
    exists (block :: blocks). split; [constructor; assumption|].
    intros w. destruct Hblock as [user [command [Hfetch [Hfind Hblock]]]].
    simpl. unfold bind, lift, resolve_commandID.
    rewrite Hfetch, Hfind. unfold ret. rewrite Hrun. subst block. reflexivity.
Qed.

(** C8, as the code has it: list mode renders the guild's rows in the order
    the storage returns them (the table's scan order; the query has no ORDER
    BY), one block per row, and the pages sent hold these blocks in that
    order.  The blocks are in ascending id order when the scan is. *)
Theorem list_mode_follows_scan_order (imports : Imports) (ctx : Context) (w : World)
  (guild : Guild) :
  length (split " " (msg_content (message ctx))) < 2 ->
  msg_guild (message ctx) = Some guild ->
  hd None (faults (storage w)) = None ->
  let found := filter (in_guild (gld_id guild)) (table (storage w)) in
  found <> [] ->
  Forall (fun row => exists block, renders imports (client ctx) row block) found ->
  exists blocks,
    Forall2 (renders imports (client ctx)) found blocks /\
    sent (snd (execute imports ctx w)) =
      sent w ++
      map (fun page =>
             Embed (setDescription page (setColor (skyblue imports) newMessageEmbed)))
        (paginate blocks) /\
    concat (paginate blocks) = map (fun s => (s ++ LF)%string) blocks.
Proof.
  intros Hargs Hguild Hfault found Hfound Hall.
  destruct (format_rows_ok imports (client ctx) found Hall) as [blocks [Hblocks Hrun]].
  exists blocks. split; [assumption|].
  split; [|apply paginate_concat].
  unfold execute.
  destruct (Nat.ltb_spec (length (split " " (msg_content (message ctx)))) 2)
    as [_|Hge]; [|lia].
  unfold list_mode, try_catch, bind, withConnection, guild_id_of,
    connection_query, run_query.
  rewrite Hguild. unfold ret.
  assert (Hanswer :
    match faults (storage w) with
    | Some err :: _ => False
    | _ => True
    end).
  { destruct (faults (storage w)) as [|[err|] fs]; simpl in Hfault;
      [exact I | discriminate | exact I]. }
  assert (Hlen : Nat.ltb (length found) 1 = false).
  { destruct found; [contradiction | reflexivity]. }
  destruct (faults (storage w)) as [|[err|] fs]; try contradiction;
    cbn -[format_rows send_pages paginate filter Nat.ltb]; fold found;
    rewrite Hlen, Hrun, send_pages_sent; reflexivity.
Qed.

(** A table scanned in ascending id order: the blocks come in that order. *)
Lemma list_mode_follows_scan_order_witness :
  exists blocks,
    Forall2 (renders Samples.imports Samples.bot)
      [Samples.entry 1 "auditlog"; Samples.entry 2 "auditlog"] blocks /\
    sent (snd (execute Samples.imports (Samples.said "!auditlog")
                 (Samples.world_of [Samples.entry 1 "auditlog";
                                    Samples.entry 2 "auditlog"]))) =
      map (fun page =>
             Embed (setDescription page
                      (setColor (skyblue Samples.imports) newMessageEmbed)))
        (paginate blocks).
Proof.
  destruct (list_mode_follows_scan_order Samples.imports (Samples.said "!auditlog")
              (Samples.world_of [Samples.entry 1 "auditlog"; Samples.entry 2 "auditlog"])
              (mkGuild "g1")) as [blocks [Hblocks [Hsent _]]].
  - vm_compute. lia.
  - reflexivity.
  - reflexivity.
  - discriminate.
  - repeat constructor; eexists; eexists; eexists;
      (split; [reflexivity | split; reflexivity]).
  - exists blocks. split; [exact Hblocks | exact Hsent].
Defined.

(** C8, as the claim has it, fails: with the entry of id 2 scanned before the
    entry of id 1, the page sent holds the block of entry 2 first. *)
Lemma list_mode_not_sorted_by_id :
  let row2 := Samples.entry 2 "auditlog" in
  let row1 := Samples.entry 1 "auditlog" in
  exists block2 block1,
    renders Samples.imports Samples.bot row2 block2 /\
    renders Samples.imports Samples.bot row1 block1 /\
    (al_id row1 < al_id row2)%Z /\
    sent (snd (execute Samples.imports (Samples.said "!auditlog")
                 (Samples.world_of [row2; row1]))) =
    [Embed (setDescription [(block2 ++ LF)%string; (block1 ++ LF)%string]
              (setColor (skyblue Samples.imports) newMessageEmbed))].
Proof.
  intros row2 row1. eexists. eexists.
  split; [|split; [|split]].
  - eexists. eexists. split; [reflexivity | split; reflexivity].
  - eexists. eexists. split; [reflexivity | split; reflexivity].
  - vm_compute. reflexivity.
  - vm_compute. reflexivity.
Qed.

(** A storage whose coming query is not set to raise answers it. *)
Lemma run_query_answers (q : Query) (st : Storage) :
  hd None (faults st) = None ->
  run_query q st =
  answer q (mkStorage (table st) (next_id st) (clock st) (tl (faults st))
              (issued st ++ [q])).
Proof.
  unfold run_query. destruct (faults st) as [|[err|] fs]; simpl;
    [reflexivity | discriminate | reflexivity].
Qed.

(** X5: list mode on a guild without entries sends the one notice, and no
    page. *)
Theorem list_mode_no_entries (imports : Imports) (ctx : Context) (w : World)
  (guild : Guild) :
  length (split " " (msg_content (message ctx))) < 2 ->
  msg_guild (message ctx) = Some guild ->
  hd None (faults (storage w)) = None ->
  filter (in_guild (gld_id guild)) (table (storage w)) = [] ->
  fst (execute imports ctx w) = Ok tt /\
  sent (snd (execute imports ctx w)) =
    sent w ++ [Text "This server has no audit log entries."] /\
  Auditlog.logged (snd (execute imports ctx w)) = Auditlog.logged w.
Proof.
  intros Hargs Hguild Hfault Hnone. unfold execute.
  destruct (Nat.ltb_spec (length (split " " (msg_content (message ctx)))) 2)
    as [_|Hge]; [|lia].
  unfold list_mode, try_catch, bind, withConnection, guild_id_of, connection_query.
  rewrite Hguild. unfold ret. rewrite (run_query_answers _ _ Hfault).
  cbn -[format_rows send_pages paginate filter Nat.ltb]. rewrite Hnone.
  repeat split.
Qed.

Lemma list_mode_no_entries_witness :
  sent (snd (execute Samples.imports (Samples.said "!auditlog") (Samples.world_of []))) =
  [Text "This server has no audit log entries."].
Proof.
  apply (list_mode_no_entries Samples.imports (Samples.said "!auditlog")
           (Samples.world_of []) (mkGuild "g1")).
  - vm_compute. lia.
  - reflexivity.
  - reflexivity.
  - reflexivity.
Defined.

(** X6: a storage fault on the read path of list mode is logged and answered by
    the generic failure notice; [execute] still ends normally. *)
Theorem list_mode_storage_fault (imports : Imports) (ctx : Context) (w : World)
  (guild : Guild) (err : Error) (fs : list (option Error)) :
  length (split " " (msg_content (message ctx))) < 2 ->
  msg_guild (message ctx) = Some guild ->
  faults (storage w) = Some err :: fs ->
  fst (execute imports ctx w) = Ok tt /\
  sent (snd (execute imports ctx w)) =
    sent w ++ [Text "Could not display audit log. Details have been logged."] /\
  Auditlog.logged (snd (execute imports ctx w)) = Auditlog.logged w ++ [LogError err].
Proof.
  intros Hargs Hguild Hfault. unfold execute.
  destruct (Nat.ltb_spec (length (split " " (msg_content (message ctx)))) 2)
    as [_|Hge]; [|lia].
  unfold list_mode, try_catch, bind, withConnection, guild_id_of,
    connection_query, run_query.
  rewrite Hguild. unfold ret. cbn beta. rewrite Hfault. repeat split.
Qed.

Lemma list_mode_storage_fault_witness :
  sent (snd (execute Samples.imports (Samples.said "!auditlog") Samples.failing_world)) =
  [Text "Could not display audit log. Details have been logged."].
Proof.
  apply (list_mode_storage_fault Samples.imports (Samples.said "!auditlog")
           Samples.failing_world (mkGuild "g1")
           (mkError "error" "connection terminated") []).
  - vm_compute. lia.
  - reflexivity.
  - reflexivity.
Defined.

(** X7: detail mode for an id the guild has no entry of (an id a double holds
    exactly) sends the not-found notice naming the id, and logs nothing. *)
Theorem detail_mode_not_found (imports : Imports) (ctx : Context) (w : World)
  (guild : Guild) (z : Z) :
  let args := split " " (msg_content (message ctx)) in
  2 <= length args ->
  isNaN_Number (second args) = false ->
  parseInt (second args) = Finite z ->
  (Z.abs z < 2 ^ 53)%Z ->
  msg_guild (message ctx) = Some guild ->
  hd None (faults (storage w)) = None ->
  filter (fun row => in_guild (gld_id guild) row && Z.eqb (al_id row) z)
    (table (storage w)) = [] ->
  fst (execute imports ctx w) = Ok tt /\
  sent (snd (execute imports ctx w)) =
    sent w ++ [Text ("Could not find audit log by ID `" ++ Z_toString z ++ "`.")] /\
  Auditlog.logged (snd (execute imports ctx w)) = Auditlog.logged w.
Proof.
  intros args Hlen Hnum Hid Hexact Hguild Hfault Hnone. unfold execute. fold args.
  destruct (Nat.ltb_spec (length args) 2) as [Hlt|_]; [lia|].
  rewrite Hnum, Hid.
  unfold detail_mode, try_catch, bind, withConnection, guild_id_of, connection_query.
  rewrite Hguild. unfold ret. rewrite (run_query_answers _ _ Hfault).
  rewrite (JSFacts.number_toString_exact z Hexact).
  cbn -[filter Nat.ltb String.append]. rewrite Hnone.
  repeat split.
Qed.

Lemma detail_mode_not_found_witness :
  sent (snd (execute Samples.imports (Samples.said "!auditlog 7")
               (Samples.world_of [Samples.entry 12 "auditlog"]))) =
  [Text "Could not find audit log by ID `7`."].
Proof.
  apply (detail_mode_not_found Samples.imports (Samples.said "!auditlog 7")
           (Samples.world_of [Samples.entry 12 "auditlog"]) (mkGuild "g1") 7%Z).
  - vm_compute. lia.
  - vm_compute. reflexivity.
  - vm_compute. reflexivity.
  - vm_compute. reflexivity.
  - reflexivity.
  - reflexivity.
  - reflexivity.
Defined.

(** *** What every run of the command does *)

Import Measures.

(** Formatting reads the client only: it leaves the world as it is, and its
    outcome does not depend on the world. *)
Lemma format_rows_pure (imports : Imports) (client : Client)
  (rows : list DatabaseAuditLog) :
  exists r, forall w, format_rows imports client rows w = (r, w).
Proof.
  induction rows as [|row rest [r IH]].
  - exists (Ok []). reflexivity.
  - simpl. unfold bind, lift, resolve_commandID.
    destruct (users_fetch client (al_user_id row)) as [user|err].
    + destruct (find _ (commands client)) as [command|].
      * destruct r as [blocks|err].
        -- eexists. intros w. unfold ret. rewrite IH. reflexivity.
        -- eexists. intros w. unfold ret. rewrite IH. reflexivity.
      * eexists. intros w. reflexivity.
    + eexists. intros w. reflexivity.
Qed.

Ltac reading_only qs :=
  split; [reflexivity|];
  split; [eexists; eexists; reflexivity|];
  split; [reflexivity|];
  split; [reflexivity|];
  exists qs; split; [rewrite ?app_nil_r; reflexivity|];
  split; [simpl; lia | reflexivity].

Lemma list_mode_summary (imports : Imports) (client : Client) (message : Message)
  (embed : MessageEmbed) (w : World) :
  answered_reading_only w (list_mode imports client message embed w).
Proof.
  unfold answered_reading_only, list_mode, try_catch, bind, withConnection,
    guild_id_of, connection_query, run_query.
  destruct (msg_guild message) as [guild|]; [|reading_only (@nil Query)].
  unfold ret. cbn beta.
  assert (Hpages : forall blocks (w1 : World),
    sent w1 = sent w ->
    exists o outs,
      sent w1 ++ map (fun page => Embed (setDescription page embed)) (paginate blocks)
      = sent w ++ o :: outs).
  { intros blocks w1 ->. destruct (paginate blocks) as [|page pages] eqn:Hp.
    - exfalso. apply (pagination_loop_nonempty blocks [] [] 0). exact Hp.
    - eexists. eexists. reflexivity. }
  destruct (faults (storage w)) as [|[err|] fs];
    cbn -[format_rows send_pages paginate filter Nat.ltb];
    try (reading_only [SelectAuditLogs (gld_id guild)]);
    (destruct (Nat.ltb _ 1);
     [reading_only [SelectAuditLogs (gld_id guild)]|]);
    (match goal with
     | |- context [format_rows imports client ?rows _] =>
         destruct (format_rows_pure imports client rows) as [[blocks|err'] Hrun]
     end);
    rewrite Hrun; cbn -[send_pages paginate]; rewrite ?send_pages_sent;
    cbn -[paginate];
    (split; [reflexivity|]);
    (split; [first [apply Hpages; reflexivity | eexists; eexists; reflexivity]|]);
    (split; [reflexivity|]); (split; [reflexivity|]);
    exists [SelectAuditLogs (gld_id guild)];
    (split; [reflexivity|]); (split; [simpl; lia | reflexivity]).
Qed.

Ltac detail_paths client guild id w :=
  destruct id as [|z|negative]; simpl;
  [reading_only [SelectAuditLog (gld_id guild) NaN]
  |
  |reading_only [SelectAuditLog (gld_id guild) (Infinity negative)]];
  destruct (filter _ (table (storage w))) as [|auditLog others]; simpl;
  [reading_only [SelectAuditLog (gld_id guild) (Finite z)]|];
  unfold lift, resolve_commandID;
  destruct (users_fetch client (al_user_id auditLog)) as [user|err']; simpl;
  [|reading_only [SelectAuditLog (gld_id guild) (Finite z)]];
  destruct (find _ (commands client)) as [command|]; simpl;
  reading_only [SelectAuditLog (gld_id guild) (Finite z)].

Lemma detail_mode_summary (imports : Imports) (client : Client) (message : Message)
  (embed : MessageEmbed) (id : number) (w : World) :
  answered_reading_only w (detail_mode imports client message embed id w).
Proof.
  unfold answered_reading_only, detail_mode, try_catch, bind, withConnection,
    guild_id_of, connection_query, run_query.
  destruct (msg_guild message) as [guild|]; simpl; [|reading_only (@nil Query)].
  destruct (faults (storage w)) as [|[err|] fs]; simpl;
    [detail_paths client guild id w
    | reading_only [SelectAuditLog (gld_id guild) id]
    | detail_paths client guild id w].
Qed.

Lemma execute_summary (imports : Imports) (ctx : Context) (w : World) :
  answered_reading_only w (execute imports ctx w).
Proof.
  unfold execute.
  destruct (Nat.ltb _ 2); [apply list_mode_summary|].
  destruct (isNaN_Number _); [|apply detail_mode_summary].
  unfold answered_reading_only, send, usage_error. reading_only (@nil Query).
Qed.

(** X8: the command never rejects and never stays silent.  Whatever the
    message, the client and the storage do (a fault of the storage, a user
    that cannot be fetched, an unregistered command id, no guild), [execute]
    ends normally and has sent at least one message to the channel. *)
Theorem execute_always_answers (imports : Imports) (ctx : Context) (w : World) :
  fst (execute imports ctx w) = Ok tt /\
  exists o outs, sent (snd (execute imports ctx w)) = sent w ++ o :: outs.
Proof.
  destruct (execute_summary imports ctx w) as [Hok [Hsent _]].
  split; assumption.
Qed.

(** X9: the command only reads.  A run issues at most one statement, it is
    one of the two SELECTs, and the table and the serial are as before. *)
Theorem execute_reads_only (imports : Imports) (ctx : Context) (w : World) :
  table (storage (snd (execute imports ctx w))) = table (storage w) /\
  next_id (storage (snd (execute imports ctx w))) = next_id (storage w) /\
  exists qs,
    issued (storage (snd (execute imports ctx w))) = issued (storage w) ++ qs /\
    length qs <= 1 /\ forallb is_select qs = true.
Proof.
  destruct (execute_summary imports ctx w) as [_ [_ H]]. exact H.
Qed.

(** When a row cannot be rendered, formatting throws. *)
Lemma format_rows_fails (imports : Imports) (client : Client)
  (rows : list DatabaseAuditLog) :
  Exists (fun row => ~ exists block, renders imports client row block) rows ->
  exists err, forall w, format_rows imports client rows w = (Throw err, w).
Proof.
  induction rows as [|row rest IH]; intros Hbad; [inversion Hbad|].
  simpl. unfold bind, lift, resolve_commandID.
  destruct (users_fetch client (al_user_id row)) as [user|err] eqn:Hfetch;
    [|eexists; intros w; reflexivity].
  destruct (find _ (commands client)) as [command|] eqn:Hfind;
    [|eexists; intros w; reflexivity].
  inversion Hbad as [? ? Hrow | ? ? Hrest]; subst.
  - exfalso. apply Hrow. eexists. exists user, command.
    split; [exact Hfetch | split; [exact Hfind | reflexivity]].
  - destruct (IH Hrest) as [err Herr]. exists err. intros w.
    unfold ret. rewrite Herr. reflexivity.
Qed.

(** X10: list mode is all or nothing.  When one of the guild's rows cannot
    be rendered (its user cannot be fetched, or no registered command has
    its command id), no page is sent at all, not even for the rows before
    it: the error is logged and the generic notice is the only message. *)
Theorem list_mode_all_or_nothing (imports : Imports) (ctx : Context) (w : World)
  (guild : Guild) :
  length (split " " (msg_content (message ctx))) < 2 ->
  msg_guild (message ctx) = Some guild ->
  hd None (faults (storage w)) = None ->
  Exists (fun row => ~ exists block, renders imports (client ctx) row block)
    (filter (in_guild (gld_id guild)) (table (storage w))) ->
  sent (snd (execute imports ctx w)) =
    sent w ++ [Text "Could not display audit log. Details have been logged."] /\
  exists err,
    Auditlog.logged (snd (execute imports ctx w)) = Auditlog.logged w ++ [LogError err].
Proof.
  intros Hargs Hguild Hfault Hbad.
  set (found := filter (in_guild (gld_id guild)) (table (storage w))) in *.
  destruct (format_rows_fails imports (client ctx) found Hbad) as [err Hrun].
  assert (Hlen : Nat.ltb (length found) 1 = false)
    by (destruct found; [inversion Hbad | reflexivity]).
  unfold execute.
  destruct (Nat.ltb_spec (length (split " " (msg_content (message ctx)))) 2)
    as [_|Hge]; [|lia].
  unfold list_mode, try_catch, bind, withConnection, guild_id_of, connection_query.
  rewrite Hguild. unfold ret. rewrite (run_query_answers _ _ Hfault).
  cbn -[format_rows send_pages paginate filter Nat.ltb]. fold found.
  rewrite Hlen, Hrun.
  split; [reflexivity | exists err; reflexivity].
Qed.

(** Two entries, the second of a command that is no longer registered. *)
Lemma list_mode_all_or_nothing_witness :
  sent (snd (execute Samples.imports (Samples.said "!auditlog")
               (Samples.world_of [Samples.entry 1 "auditlog"; Samples.entry 2 "purge"]))) =
  [Text "Could not display audit log. Details have been logged."].
Proof.
  apply (list_mode_all_or_nothing Samples.imports (Samples.said "!auditlog")
           (Samples.world_of [Samples.entry 1 "auditlog"; Samples.entry 2 "purge"])
           (mkGuild "g1")).
  - vm_compute. lia.
  - reflexivity.
  - reflexivity.
  - apply Exists_cons_tl, Exists_cons_hd.
    intros [block [user [command [_ [Hfind _]]]]]. discriminate Hfind.
Defined.

(** The embed detail mode builds for a row (lines 131-135). *)
Lemma detail_mode_found (imports : Imports) (client : Client) (message : Message)
  (embed : MessageEmbed) (w : World) (guild : Guild) (z : Z)
  (auditLog : DatabaseAuditLog) (others : list DatabaseAuditLog)
  (user : User) (command : Command) :
  msg_guild message = Some guild ->
  hd None (faults (storage w)) = None ->
  filter (fun row => in_guild (gld_id guild) row && Z.eqb (al_id row) z)
    (table (storage w)) = auditLog :: others ->
  users_fetch client (al_user_id auditLog) = Ok user ->
  find (fun cmd => same_id cmd (al_command_id auditLog)) (commands client) = Some command ->
  detail_mode imports client message embed (Finite z) w =
  (Ok tt,
   Auditlog.mkWorld
     (mkStorage (table (storage w)) (next_id (storage w)) (clock (storage w))
        (tl (faults (storage w)))
        (issued (storage w) ++ [SelectAuditLog (gld_id guild) (Finite z)]))
     (sent w ++
      [Embed
         (setTimestamp (al_timestamp auditLog)
            (addField "Message Text"
               (truncate imports
                  ("```" ++ LF ++ nullable_toString (al_message auditLog) ++ "```")
                  1024 " ..." true)
               (addField "Command" ("`" ++ cmd_id command ++ "`")
                  (setAuthor (usr_tag user ++ " (" ++ usr_id user ++ ")")
                     (usr_avatar user)
                     (setTitle ("Audit Log #" ++ number_toString (Finite z)) embed)))))])
     (Auditlog.logged w)).
Proof.
  intros Hguild Hfault Hfound Hfetch Hfind.
  unfold detail_mode, try_catch, bind, withConnection, guild_id_of, connection_query.
  rewrite Hguild. unfold ret. rewrite (run_query_answers _ _ Hfault).
  cbn -[filter Nat.ltb String.append truncate]. rewrite Hfound.
  cbn -[String.append truncate]. unfold lift, resolve_commandID, bind.
  rewrite Hfetch, Hfind. reflexivity.
Qed.

(** X11: detail mode shows the entry it was asked for, and only an entry of
    the guild the message came from.  When the query returns a row whose
    user can be fetched and whose command is registered, the one message
    sent is an embed with the title, the author line, the command id and the
    message text of that row and its timestamp; the row has the id asked for
    and the guild id of the message; nothing is logged. *)
Theorem detail_mode_shows_entry (imports : Imports) (ctx : Context) (w : World)
  (guild : Guild) (z : Z) (auditLog : DatabaseAuditLog)
  (others : list DatabaseAuditLog) (user : User) (command : Command) :
  let args := split " " (msg_content (message ctx)) in
  2 <= length args ->
  isNaN_Number (second args) = false ->
  parseInt (second args) = Finite z ->
  (Z.abs z < 2 ^ 53)%Z ->
  msg_guild (message ctx) = Some guild ->
  hd None (faults (storage w)) = None ->
  filter (fun row => in_guild (gld_id guild) row && Z.eqb (al_id row) z)
    (table (storage w)) = auditLog :: others ->
  users_fetch (client ctx) (al_user_id auditLog) = Ok user ->
  find (fun cmd => same_id cmd (al_command_id auditLog)) (commands (client ctx))
    = Some command ->
  sent (snd (execute imports ctx w)) =
    sent w ++
    [Embed
       (mkEmbed (Some (skyblue imports))
          (Some ("Audit Log #" ++ Z_toString z)%string)
          (Some ((usr_tag user ++ " (" ++ usr_id user ++ ")")%string, usr_avatar user))
          [("Command", ("`" ++ cmd_id command ++ "`")%string);
           ("Message Text",
            truncate imports
              ("```" ++ LF ++ nullable_toString (al_message auditLog) ++ "```")
              1024 " ..." true)]
          None
          (Some (al_timestamp auditLog)))] /\
  Auditlog.logged (snd (execute imports ctx w)) = Auditlog.logged w /\
  al_id auditLog = z /\
  al_guild_id auditLog = gld_id guild /\
  al_command_id auditLog = Some (cmd_id command) /\
  In auditLog (table (storage w)).
Proof.
  intros args Hlen Hnum Hid Hexact Hguild Hfault Hfound Hfetch Hfind.
  unfold execute. fold args.
  destruct (Nat.ltb_spec (length args) 2) as [Hlt|_]; [lia|].
  rewrite Hnum, Hid.
  rewrite (detail_mode_found imports (client ctx) (message ctx) _ w guild z
             auditLog others user command Hguild Hfault Hfound Hfetch Hfind).
  rewrite (JSFacts.number_toString_exact z Hexact).
  split; [reflexivity|]. split; [reflexivity|].
  assert (Hin : In auditLog
                  (filter (fun row => in_guild (gld_id guild) row && Z.eqb (al_id row) z)
                     (table (storage w))))
    by (rewrite Hfound; left; reflexivity).
  apply filter_In in Hin. destruct Hin as [Hin Hmatch].
  apply andb_true_iff in Hmatch. destruct Hmatch as [Hg Hz].
  apply find_some in Hfind. destruct Hfind as [_ Hsame].
  unfold same_id in Hsame.
  destruct (al_command_id auditLog) as [stored|]; [|discriminate].
  apply String.eqb_eq in Hsame. apply String.eqb_eq in Hg. apply Z.eqb_eq in Hz.
  repeat split; try assumption. now subst.
Qed.

(** The invocation [!auditlog 12] on a table that holds entry 12. *)
Lemma detail_mode_shows_entry_witness :
  Auditlog.logged
    (snd (execute Samples.imports (Samples.said "!auditlog 12")
            (Samples.world_of [Samples.entry 7 "auditlog"; Samples.entry 12 "auditlog"])))
  = [].
Proof.
  refine (proj1 (proj2
    (detail_mode_shows_entry Samples.imports (Samples.said "!auditlog 12")
       (Samples.world_of [Samples.entry 7 "auditlog"; Samples.entry 12 "auditlog"])
       (mkGuild "g1") 12%Z (Samples.entry 12 "auditlog") []
       (mkUser "1001" "user#1001" "https://cdn.example/avatar.png") command
       _ _ _ _ _ _ _ _ _))).
  - vm_compute. lia.
  - vm_compute. reflexivity.
  - vm_compute. reflexivity.
  - vm_compute. reflexivity.
  - reflexivity.
  - reflexivity.
  - reflexivity.
  - reflexivity.
  - reflexivity.
Defined.

(** X12: any fault of the storage on the query of detail mode is caught: the
    notice naming the id and the error are logged, the user is told that the
    search failed, and [execute] ends normally. *)
Theorem detail_mode_storage_fault (imports : Imports) (ctx : Context) (w : World)
  (guild : Guild) (err : Error) (fs : list (option Error)) :
  let args := split " " (msg_content (message ctx)) in
  let id := number_toString (parseInt (second args)) in
  2 <= length args ->
  isNaN_Number (second args) = false ->
  msg_guild (message ctx) = Some guild ->
  faults (storage w) = Some err :: fs ->
  fst (execute imports ctx w) = Ok tt /\
  sent (snd (execute imports ctx w)) =
    sent w ++ [Text ("Could not search for audit log by ID `" ++ id ++ "`.")] /\
  Auditlog.logged (snd (execute imports ctx w)) =
    Auditlog.logged w ++
    [LogText ("Could not search for audit log by ID '" ++ id ++ "'."); LogError err].
Proof.
  intros args id Hlen Hnum Hguild Hfault. unfold execute. fold args.
  destruct (Nat.ltb_spec (length args) 2) as [Hlt|_]; [lia|].
  rewrite Hnum.
  unfold detail_mode, try_catch, bind, withConnection, guild_id_of,
    connection_query, run_query.
  rewrite Hguild. unfold ret. cbn beta. rewrite Hfault.
  cbn -[String.append]. rewrite <- app_assoc. repeat split.
Qed.

Lemma detail_mode_storage_fault_witness :
  sent (snd (execute Samples.imports (Samples.said "!auditlog 12") Samples.failing_world)) =
  [Text "Could not search for audit log by ID `12`."].
Proof.
  apply (detail_mode_storage_fault Samples.imports (Samples.said "!auditlog 12")
           Samples.failing_world (mkGuild "g1")
           (mkError "error" "connection terminated") []).
  - vm_compute. lia.
  - vm_compute. reflexivity.
  - reflexivity.
  - reflexivity.
Defined.

(** *** From the id a block shows back to the entry *)

Import JSFacts.

(** X13: an id as list mode prints it is an id detail mode accepts.  For
    every id from 0 up to 2^53, a message made of an invocation without spaces, one
    space and the decimal digits of the id passes the check of line 105, is
    parsed back to that id, and the one query issued selects that id in the
    guild of the message. *)
Theorem printed_id_selects_that_id (imports : Imports) (ctx : Context) (w : World)
  (guild : Guild) (invocation : string) (z : Z) :
  (0 <= z < 2 ^ 53)%Z ->
  forallChars (fun c => negb (Ascii.eqb c " ")) invocation = true ->
  msg_content (message ctx) = (invocation ++ " " ++ Z_toString z)%string ->
  msg_guild (message ctx) = Some guild ->
  isNaN_Number (Z_toString z) = false /\
  parseInt (Z_toString z) = Finite z /\
  issued (storage (snd (execute imports ctx w))) =
    issued (storage w) ++ [SelectAuditLog (gld_id guild) (Finite z)].
Proof.
  intros [Hz Hexact] Hinv Hcontent Hguild.
  destruct (Z_toString_digits z Hz) as [Hdigits Hvalue].
  assert (Hnum : isNaN_Number (Z_toString z) = false)
    by (apply isNaN_Number_digits; exact Hdigits).
  assert (Hparse : parseInt (Z_toString z) = Finite z)
    by (rewrite (parseInt_digits _ Hdigits), Hvalue; apply toNumber_exact;
        split; assumption).
  split; [exact Hnum|]. split; [exact Hparse|].
  assert (Hargs : split " " (msg_content (message ctx)) = [invocation; Z_toString z]).
  { rewrite Hcontent. cbn [String.append].
    rewrite (split_token_then " " invocation _ Hinv).
    rewrite split_one_token; [reflexivity|].
    apply digits_hold_no_space. unfold isDigits in Hdigits.
    apply andb_true_iff in Hdigits. apply Hdigits. }
  unfold execute. rewrite Hargs. cbn [length Nat.ltb Nat.leb second nth].
  rewrite Hnum, Hparse.
  pose proof (detail_mode_trace imports (client ctx) (message ctx)
                (setColor (skyblue imports) newMessageEmbed) (Finite z) w)
    as [_ Hissued].
  rewrite Hguild in Hissued. exact Hissued.
Qed.

(** The invocation [!auditlog 42]. *)
Lemma printed_id_selects_that_id_witness :
  issued (storage (snd (execute Samples.imports (Samples.said "!auditlog 42")
                          (Samples.world_of [])))) =
  [SelectAuditLog "g1" (Finite 42)].
Proof.
  refine (proj2 (proj2
    (printed_id_selects_that_id Samples.imports (Samples.said "!auditlog 42")
       (Samples.world_of []) (mkGuild "g1") "!auditlog" 42%Z _ _ _ _))).
  - vm_compute. split; [discriminate | reflexivity].
  - reflexivity.
  - reflexivity.
  - reflexivity.
Defined.

(** *** What [insertAuditLog] sends to the storage, and finding it again *)

(** X14: [insertAuditLog] issues exactly one statement for a message of a
    guild, the INSERT with the guild id, the author id, the command id and
    the text, in this order; for a message without a guild it issues none,
    leaves the table as it was and logs the TypeError and the notice. *)
Theorem insertAuditLog_issues_one_insert (connection : PoolClient) (message : Message)
  (commandID : string) (w : World) :
  let w' := snd (insertAuditLog connection message commandID w) in
  issued (storage w') =
    issued (storage w) ++
    match msg_guild message with
    | Some guild =>
        [InsertAuditLog (gld_id guild) (usr_id (msg_author message)) commandID
           (msg_content message)]
    | None => []
    end /\
  (msg_guild message = None ->
     table (storage w') = table (storage w) /\
     Auditlog.logged w' =
       Auditlog.logged w ++
       [LogError (TypeError "Cannot read property 'id' of null");
        LogText ("Could not insert into " ++ DQ ++ "auditlog" ++ DQ ++ " table.")]).
Proof.
  unfold insertAuditLog, try_catch, bind, guild_id_of, connection_query, run_query.
  destruct (msg_guild message) as [guild|].
  - unfold ret. destruct (faults (storage w)) as [|[err|] fs]; simpl;
      (split; [reflexivity | discriminate]).
  - simpl. rewrite app_nil_r, <- app_assoc.
    split; [reflexivity|]. intros _. split; reflexivity.
Qed.

(** A command invoked in a direct message. *)
Lemma insertAuditLog_issues_one_insert_witness :
  issued (storage (snd (insertAuditLog pooled
            (direct_message Samples.alice "!auditlog") "auditlog"
            (Samples.world_of [])))) = [] /\
  table (storage (snd (insertAuditLog pooled
            (direct_message Samples.alice "!auditlog") "auditlog"
            (Samples.world_of [])))) = [].
Proof.
  pose proof (insertAuditLog_issues_one_insert pooled
                (direct_message Samples.alice "!auditlog") "auditlog"
                (Samples.world_of [])) as [Hissued Hnone].
  split; [exact Hissued | exact (proj1 (Hnone eq_refl))].
Defined.

(** The world after an insert that runs. *)
Lemma insertAuditLog_runs (connection : PoolClient) (message : Message)
  (commandID : string) (w : World) (guild : Guild) :
  msg_guild message = Some guild ->
  hd None (faults (storage w)) = None ->
  insertAuditLog connection message commandID w =
  (Ok tt,
   Auditlog.mkWorld
     (mkStorage (table (storage w) ++ [recorded (storage w) guild message commandID])
        (next_id (storage w) + 1) (clock (storage w)) (tl (faults (storage w)))
        (issued (storage w) ++
         [InsertAuditLog (gld_id guild) (usr_id (msg_author message)) commandID
            (msg_content message)]))
     (sent w) (Auditlog.logged w)).
Proof.
  intros Hguild Hfault.
  unfold insertAuditLog, try_catch, bind, guild_id_of, connection_query.
  rewrite Hguild. unfold ret. rewrite (run_query_answers _ _ Hfault). reflexivity.
Qed.

Lemma filter_fresh_id (guild_id : string) (z : Z) (rows : list DatabaseAuditLog) :
  Forall (fun row => al_id row <> z) rows ->
  filter (fun row => in_guild guild_id row && Z.eqb (al_id row) z) rows = [].
Proof.
  induction rows as [|row rest IH]; intros Hfresh; [reflexivity|].
  inversion Hfresh as [|? ? Hrow Hrest]; subst. cbn [filter].
  apply Z.eqb_neq in Hrow. rewrite Hrow, andb_false_r. apply IH, Hrest.
Qed.

(** X15: what [insertAuditLog] records, detail mode shows.  After an insert
    that runs for a message of a guild, with a serial no row has yet, an
    invocation in that guild with the digits of that serial sends the embed of
    the recorded entry: the command id given to [insertAuditLog], the text of
    the recorded message and the clock of the insertion. *)
Theorem recorded_invocation_is_shown (imports : Imports) (ctx : Context) (w : World)
  (guild : Guild) (invoked : Message) (commandID invocation : string)
  (user : User) (command : Command) :
  let serial := next_id (storage w) in
  msg_guild invoked = Some guild ->
  hd None (faults (storage w)) = None ->
  hd None (tl (faults (storage w))) = None ->
  Forall (fun row => al_id row <> serial) (table (storage w)) ->
  (0 <= serial < 2 ^ 53)%Z ->
  users_fetch (client ctx) (usr_id (msg_author invoked)) = Ok user ->
  find (fun cmd => same_id cmd (Some commandID)) (commands (client ctx)) = Some command ->
  msg_guild (message ctx) = Some guild ->
  forallChars (fun c => negb (Ascii.eqb c " ")) invocation = true ->
  msg_content (message ctx) = (invocation ++ " " ++ Z_toString serial)%string ->
  sent (snd (execute imports ctx
               (snd (insertAuditLog pooled invoked commandID w)))) =
    sent w ++
    [Embed
       (mkEmbed (Some (skyblue imports))
          (Some ("Audit Log #" ++ Z_toString serial)%string)
          (Some ((usr_tag user ++ " (" ++ usr_id user ++ ")")%string, usr_avatar user))
          [("Command", ("`" ++ commandID ++ "`")%string);
           ("Message Text",
            truncate imports ("```" ++ LF ++ msg_content invoked ++ "```")
              1024 " ..." true)]
          None
          (Some (clock (storage w))))].
Proof.
  intros serial Hinvoked Hfault1 Hfault2 Hfresh [Hz Hexact] Hfetch Hfind Hguild Hinv Hcontent.
  rewrite (insertAuditLog_runs pooled invoked commandID w guild Hinvoked Hfault1).
  cbn [snd].
  destruct (Z_toString_digits serial Hz) as [Hdigits Hvalue].
  assert (Hnum : isNaN_Number (Z_toString serial) = false)
    by (apply isNaN_Number_digits; exact Hdigits).
  assert (Hparse : parseInt (Z_toString serial) = Finite serial)
    by (rewrite (parseInt_digits _ Hdigits), Hvalue; apply toNumber_exact;
        split; assumption).
  assert (Hargs : split " " (msg_content (message ctx)) = [invocation; Z_toString serial]).
  { rewrite Hcontent. cbn [String.append].
    rewrite (split_token_then " " invocation _ Hinv).
    rewrite split_one_token; [reflexivity|].
    apply digits_hold_no_space. unfold isDigits in Hdigits.
    apply andb_true_iff in Hdigits. apply Hdigits. }
  assert (Hid : cmd_id command = commandID).
  { apply find_some in Hfind. destruct Hfind as [_ Hsame].
    apply String.eqb_eq in Hsame. exact Hsame. }
  unfold execute. rewrite Hargs. cbn [length Nat.ltb Nat.leb second nth].
  rewrite Hnum, Hparse.
  rewrite (detail_mode_found imports (client ctx) (message ctx) _ _ guild serial
             (recorded (storage w) guild invoked commandID) [] user command).
  - cbn [snd sent]. rewrite Hid, number_toString_exact by lia. reflexivity.
  - exact Hguild.
  - exact Hfault2.
  - cbn [storage table]. rewrite filter_app.
    rewrite (filter_fresh_id _ _ _ Hfresh). cbn [app filter].
    unfold in_guild, recorded. cbn [al_id al_guild_id]. fold serial.
    rewrite String.eqb_refl, Z.eqb_refl. reflexivity.
  - exact Hfetch.
  - exact Hfind.
Qed.

(** A first invocation recorded in an empty table, then looked up. *)
Lemma recorded_invocation_is_shown_witness :
  exists shown,
    sent (snd (execute Samples.imports (Samples.said "!auditlog 100")
                 (snd (insertAuditLog pooled
                         (Auditlog.message (Samples.said "!auditlog")) "auditlog"
                         (Samples.world_of []))))) = [Embed shown] /\
    emb_fields shown =
      [("Command", "`auditlog`"%string);
       ("Message Text", ("```" ++ LF ++ "!auditlog```")%string)].
Proof.
  eexists. split.
  - refine (recorded_invocation_is_shown Samples.imports (Samples.said "!auditlog 100")
              (Samples.world_of []) (mkGuild "g1")
              (Auditlog.message (Samples.said "!auditlog")) "auditlog" "!auditlog"
              (mkUser "1001" "user#1001" "https://cdn.example/avatar.png") command
              _ _ _ _ _ _ _ _ _ _).
    + reflexivity.
    + reflexivity.
    + reflexivity.
    + constructor.
    + vm_compute. split; [discriminate | reflexivity].
    + reflexivity.
    + reflexivity.
    + reflexivity.
    + reflexivity.
    + reflexivity.
  - reflexivity.
Defined.

(** *** The text of a block *)

Lemma append_nonempty (s t : string) :
  t <> EmptyString -> (s ++ t)%string <> EmptyString.
Proof. destruct s; [trivial | discriminate]. Qed.

(** Trimming the end of a string leaves alone what precedes its last
    character that is no white space. *)
Lemma trimEnd_append (s t kept : string) :
  trimEnd t = kept -> kept <> EmptyString ->
  trimEnd (s ++ t) = (s ++ kept)%string.
Proof.
  intros Ht Hkept. induction s as [|c s IH]; [exact Ht|].
  cbn [String.append trimEnd]. rewrite IH.
  destruct (s ++ kept)%string eqn:Happ; [|reflexivity].
  exfalso. apply (append_nonempty s kept Hkept). exact Happ.
Qed.

Ltac holds_text :=
  repeat first [discriminate | apply append_nonempty].

(** X16: [trim] removes the indentation of the template and nothing of the
    values.  Whatever the id, the command id, the time stamp, the tag and the
    user id are (white space at their ends included), the block is the four
    lines of the template from [__**Audit Log #] to the closing parenthesis,
    and it is 78 characters longer than the five values together. *)
Theorem format_entry_text (auditLog : DatabaseAuditLog) (commandID : option string)
  (timestamp : string) (user : User) :
  format_entry auditLog commandID timestamp user =
  ("__**Audit Log #" ++ Z_toString (al_id auditLog)
     ++ ":**__ `" ++ nullable_toString commandID ++ "`"
   ++ LF ++ spaces 10 ++ "**Time:** " ++ timestamp
   ++ LF ++ spaces 10 ++ "**User:** " ++ usr_tag user
   ++ LF ++ spaces 10 ++ "(" ++ al_user_id auditLog ++ ")")%string /\
  String.length (format_entry auditLog commandID timestamp user) =
  78 + String.length (Z_toString (al_id auditLog))
     + String.length (nullable_toString commandID)
     + String.length timestamp
     + String.length (usr_tag user)
     + String.length (al_user_id auditLog).
Proof.
  assert (Htext :
    format_entry auditLog commandID timestamp user =
    ("__**Audit Log #" ++ Z_toString (al_id auditLog)
       ++ ":**__ `" ++ nullable_toString commandID ++ "`"
     ++ LF ++ spaces 10 ++ "**Time:** " ++ timestamp
     ++ LF ++ spaces 10 ++ "**User:** " ++ usr_tag user
     ++ LF ++ spaces 10 ++ "(" ++ al_user_id auditLog ++ ")")%string).
  { unfold format_entry, trim.
    match goal with
    | |- trimEnd (trimStart (LF ++ spaces 10 ++ ?body)) = _ =>
        change (trimStart (LF ++ spaces 10 ++ body)) with body
    end.
    repeat (apply trimEnd_append; [|holds_text]).
    reflexivity. }
  split; [exact Htext|].
  rewrite Htext. repeat rewrite PaginationFacts.length_append.
  change (String.length "__**Audit Log #") with 15.
  change (String.length ":**__ `") with 7.
  change (String.length "`") with 1.
  change (String.length LF) with 1.
  change (String.length (spaces 10)) with 10.
  change (String.length "**Time:** ") with 10.
  change (String.length "**User:** ") with 10.
  change (String.length "(") with 1.
  change (String.length ")") with 1.
  lia.
Qed.

End AuditlogFacts.

(** ** Facts about the error event *)

Module ErrorEventFacts.
Import JS Logger ErrorEvent.

Lemma execute_host_unreachable (reconnectTimeout : Z) (err : Error) (w : World) :
  err_name err = "ENOTFOUND" ->
  execute reconnectTimeout err w =
  mkWorld
    (logged w ++
     [LogText "Lost connection to Discord, will attempt reconnect in 30 seconds..."])
    (timers w ++ [mkTimer Reconnect reconnectTimeout])
    (logins w).
Proof.
  intros Hname. unfold execute. rewrite Hname. reflexivity.
Qed.

(** C3, as the claim has it, fails: the handler keeps no record of a pending
    timer.  A second fault named [ENOTFOUND], delivered while the timer of
    the first is pending, arms a second timer, and each of them runs a login
    when it fires. *)
Lemma second_fault_arms_second_timer :
  let pending := run 30000 [Fault host_unreachable] initial in
  timers pending = [mkTimer Reconnect 30000] /\
  timers (execute 30000 host_unreachable pending) =
    [mkTimer Reconnect 30000; mkTimer Reconnect 30000] /\
  logins (run 30000 [Fault host_unreachable; Fault host_unreachable;
                     TimerFires; TimerFires] initial) = 2.
Proof. vm_compute. repeat split. Qed.

(** Faults named [ENOTFOUND], one after the other. *)
Lemma run_ENOTFOUND_faults (reconnectTimeout : Z) (errs : list Error) :
  forall w,
    Forall (fun err => err_name err = "ENOTFOUND") errs ->
    run reconnectTimeout (map Fault errs) w =
    mkWorld
      (logged w ++
       repeat (LogText "Lost connection to Discord, will attempt reconnect in 30 seconds...")
         (length errs))
      (timers w ++ repeat (mkTimer Reconnect reconnectTimeout) (length errs))
      (logins w).
Proof.
  induction errs as [|err rest IH]; intros w Hall.
  - cbn [map run fold_left length repeat]. rewrite !app_nil_r. destruct w; reflexivity.
  - inversion Hall as [|? ? Hname Hrest]; subst.
    unfold run in *. cbn [map fold_left step].
    rewrite (IH _ Hrest), (execute_host_unreachable _ _ _ Hname).
    cbn [logged timers logins length repeat]. rewrite <- !app_assoc. reflexivity.
Qed.

(** Expiries, one after the other, while timers are pending. *)
Lemma run_expiries (reconnectTimeout : Z) (k : nat) :
  forall w,
    k <= length (timers w) ->
    run reconnectTimeout (repeat TimerFires k) w =
    mkWorld (logged w) (skipn k (timers w)) (logins w + k).
Proof.
  induction k as [|k IH]; intros w Hk.
  - cbn [repeat run fold_left skipn]. rewrite Nat.add_0_r. destruct w; reflexivity.
  - unfold run in *. cbn [repeat fold_left step]. unfold fire.
    destruct (timers w) as [|[[] ms] rest] eqn:Htimers; [simpl in Hk; lia|].
    rewrite IH by (cbn [timers]; simpl in Hk; lia).
    cbn [logged timers logins skipn]. f_equal. lia.
Qed.

(** C3, as the code has it: every fault named [ENOTFOUND] logs the
    lost-connection line and arms one more timer with the configured delay,
    whether or not one is pending.  After [n] such faults with no expiry in
    between, [n] more timers are pending, [n] lines are logged and no login
    has run; then every expiry removes the oldest pending timer, runs exactly
    one login and logs nothing.  Only the name is tested: a fault of any other
    name arms no timer. *)
Theorem every_ENOTFOUND_fault_arms_a_timer (reconnectTimeout : Z)
  (errs : list Error) (w : World) :
  Forall (fun err => err_name err = "ENOTFOUND") errs ->
  let armed := run reconnectTimeout (map Fault errs) w in
  timers armed =
    timers w ++ repeat (mkTimer Reconnect reconnectTimeout) (length errs) /\
  logged armed =
    logged w ++
    repeat (LogText "Lost connection to Discord, will attempt reconnect in 30 seconds...")
      (length errs) /\
  logins armed = logins w /\
  (forall k, k <= length (timers armed) ->
     let fired := run reconnectTimeout (repeat TimerFires k) armed in
     timers fired = skipn k (timers armed) /\
     logins fired = logins armed + k /\
     logged fired = logged armed) /\
  (forall err, err_name err <> "ENOTFOUND" ->
     timers (execute reconnectTimeout err armed) = timers armed /\
     logins (execute reconnectTimeout err armed) = logins armed).
Proof.
  intros Hall armed. unfold armed. rewrite (run_ENOTFOUND_faults _ _ _ Hall).
  cbn [timers logged logins].
  split; [reflexivity|]. split; [reflexivity|]. split; [reflexivity|]. split.
  - intros k Hk. rewrite run_expiries by (cbn [timers]; exact Hk).
    cbn [timers logged logins]. repeat split.
  - intros err Hname. unfold execute.
    destruct (String.eqb_spec (err_name err) "ENOTFOUND") as [Heq|_];
      [contradiction | split; reflexivity].
Qed.

(** Two faults in a row from the start, then both timers fire: two logins,
    no timer left. *)
Lemma every_ENOTFOUND_fault_arms_a_timer_witness :
  timers (run 30000 (map Fault [host_unreachable; host_unreachable]) initial) =
    [mkTimer Reconnect 30000; mkTimer Reconnect 30000] /\
  logins (run 30000 (repeat TimerFires 2)
            (run 30000 (map Fault [host_unreachable; host_unreachable]) initial)) = 2 /\
  timers (run 30000 (repeat TimerFires 2)
            (run 30000 (map Fault [host_unreachable; host_unreachable]) initial)) = [].
Proof.
  pose proof (every_ENOTFOUND_fault_arms_a_timer 30000
                [host_unreachable; host_unreachable] initial
                (Forall_cons _ (eq_refl : err_name host_unreachable = "ENOTFOUND")
                   (Forall_cons _ (eq_refl : err_name host_unreachable = "ENOTFOUND")
                      (Forall_nil _)))) as [Htimers [_ [_ [Hfire _]]]].
  split; [exact Htimers|].
  destruct (Hfire 2 (le_n 2)) as [Hrest [Hlogins _]].
  split; [exact Hlogins | exact Hrest].
Defined.

(** C6: a fault whose name is not [ENOTFOUND] is logged as an error, and
    that is all: the pending timers and the logins made are as before. *)
Theorem other_fault_is_only_logged (reconnectTimeout : Z) (err : Error) (w : World) :
  err_name err <> "ENOTFOUND" ->
  execute reconnectTimeout err w =
  mkWorld (logged w ++ [LogError err]) (timers w) (logins w).
Proof.
  intros Hname. unfold execute.
  destruct (String.eqb_spec (err_name err) "ENOTFOUND") as [Heq|_];
    [contradiction | reflexivity].
Qed.

(** A connection reset, delivered at the start. *)
Lemma other_fault_is_only_logged_witness :
  execute 30000 (mkError "ECONNRESET" "read ECONNRESET") initial =
  mkWorld [LogError (mkError "ECONNRESET" "read ECONNRESET")] [] 0.
Proof.
  apply (other_fault_is_only_logged 30000 (mkError "ECONNRESET" "read ECONNRESET")
           initial).
  discriminate.
Defined.

(** *** Every fault is accounted for *)

Import Measures.

(** One event changes the log by one line exactly when it is a fault, and
    moves one unit between pending timers and logins, or adds one. *)
Lemma step_accounts (reconnectTimeout : Z) (w : World) (ev : Event) :
  let w' := step reconnectTimeout w ev in
  logins w' + length (timers w') =
    logins w + length (timers w) + (if recoverable ev then 1 else 0) /\
  length (logged w') = length (logged w) + (if is_fault ev then 1 else 0) /\
  (Forall (fun t => delay t = reconnectTimeout) (timers w) ->
   Forall (fun t => delay t = reconnectTimeout) (timers w')).
Proof.
  destruct ev as [err|]; cbn [step recoverable is_fault].
  - unfold execute. destruct (String.eqb (err_name err) "ENOTFOUND");
      cbn [logger_error setTimeout logins timers logged];
      rewrite ?length_app; cbn [length];
      (split; [lia|]); (split; [lia|]); intros Hall;
      [apply Forall_app; split; [exact Hall | repeat constructor] | exact Hall].
  - unfold fire. destruct (timers w) as [|[[] ms] rest] eqn:Htimers.
    + rewrite ?Htimers. cbn [length]. split; [lia|]. split; [lia|]. trivial.
    + cbn [logins timers logged length]. split; [lia|]. split; [lia|].
      intros Hall. inversion Hall; assumption.
Qed.

(** X17: over any sequence of faults and timer expiries, the logins made
    plus the timers still pending grow by exactly the number of
    host-unreachable faults (no login without such a fault, and none of them
    lost); one line is logged per fault; and every timer armed carries the
    configured delay. *)
Theorem run_accounts_for_every_fault (reconnectTimeout : Z) (events : list Event)
  (w : World) :
  logins (run reconnectTimeout events w) +
    length (timers (run reconnectTimeout events w)) =
    logins w + length (timers w) + length (filter recoverable events) /\
  length (logged (run reconnectTimeout events w)) =
    length (logged w) + length (filter is_fault events) /\
  (Forall (fun t => delay t = reconnectTimeout) (timers w) ->
   Forall (fun t => delay t = reconnectTimeout)
     (timers (run reconnectTimeout events w))).
Proof.
  revert w. induction events as [|ev rest IH]; intros w.
  - cbn [run fold_left filter length]. split; [lia|]. split; [lia|]. trivial.
  - unfold run in *. cbn [fold_left filter].
    destruct (IH (step reconnectTimeout w ev)) as [Hlogins [Hlogged Hdelay]].
    destruct (step_accounts reconnectTimeout w ev) as [Hl1 [Hl2 Hd1]].
    rewrite Hlogins, Hlogged.
    split; [|split].
    + destruct (recoverable ev); cbn [length]; lia.
    + destruct (is_fault ev); cbn [length]; lia.
    + intros Hall. apply Hdelay, Hd1, Hall.
Qed.

(** Two host-unreachable faults with a connection reset between them: the
    two timers pending carry the configured delay. *)
Lemma run_accounts_for_every_fault_witness :
  Forall (fun t => delay t = 30000%Z)
    (timers (run 30000 [Fault host_unreachable;
                        Fault (mkError "ECONNRESET" "read ECONNRESET");
                        Fault host_unreachable] initial)).
Proof.
  apply (run_accounts_for_every_fault 30000
           [Fault host_unreachable; Fault (mkError "ECONNRESET" "read ECONNRESET");
            Fault host_unreachable] initial).
  constructor.
Defined.

End ErrorEventFacts.
